(** * Multi-hop dataset translation with on-disk caching

    A shallow embedding of [data_tools/dataset_processers.py] and of the
    loader it relies on ([data_tools/dataset_loaders.py]): the chunked
    translation of one text, the cache lookup of the orchestrator, the
    hop-by-hop translation loop and its cache writes.

    The file system is a finite map from paths to parsed JSON arrays.  The
    external collaborators (the settings constants, the cache-file naming
    function, the dataset class conversions and the translation library)
    are the fields of an [Environment].  Exceptions and effects are threaded
    through a small state-and-trace monad. *)

From Stdlib Require Import ZArith List String Ascii Lia.
From stdpp Require Import gmap strings list sorting.

(* String literals are read as [string]; every other notation keeps its
   list or nat meaning, and [+:+] appends strings. *)
Open Scope string_scope.
Open Scope list_scope.
Open Scope nat_scope.

(** ** Data model *)

(** Modelled from the spec: the class [DatasetElement] of
    [data_tools/dataset_class.py], which is not among the sources.  The
    spec gives it the fields id, text and label/category; the pipeline
    reads and assigns [id] and [text] and carries the label along. *)
Record DatasetElement := mkElement {
  id : string;
  text : string;
  category : string
}.

(** A [BatchEncoding] holding one chunk of a tokenized text. *)
Record BatchEncoding := mkChunk {
  input_ids : list Z;
  attention_mask : list Z
}.

(** The exceptions the pipeline can raise or let through. *)
Inductive Error :=
| FileNotFoundError (path : string)
| ValueError (msg : string)
| IndexError
| BackendError (model_name : string).

(** The observable actions of a call, in the order they happen. *)
Inductive Event :=
| LoadModel (src_lang dest_lang : string)
| TranslateText (text : string)
| WriteFile (path : string).

Inductive Result (A : Type) :=
| Ok (a : A)
| Raise (e : Error).
Arguments Ok {A} a.
Arguments Raise {A} e.

(** The collaborators that live outside the two modelled modules:
    [settings.py], [dataset_utils.get_transtation_file_name],
    [dataset_class.dataset_from_dict] / [dataset_to_dict] and the
    MarianMT tokenizer and model of the transformers library. *)
Record Environment := mkEnv {
  TRAIN_DATASET_EN : string;
  TRAIN_DATASET_ES : string;
  TRAIN_TRANSLATED_DATASET_FOLDER : string;
  get_transtation_file_name : string → string → list string → string;
  Dict : Type;
  dataset_from_dict : list Dict → list DatasetElement;
  dataset_to_dict : list DatasetElement → list Dict;
  MarianTokenizer : Type;
  MarianMTModel : Type;
  tokenizer_from_pretrained : string → option MarianTokenizer;
  model_from_pretrained : string → string → option MarianMTModel;
  tokenize : MarianTokenizer → string → list Z * list Z;
  generate : MarianMTModel → BatchEncoding → option (list Z);
  decode : MarianTokenizer → list Z → string;
  config_max_length : MarianMTModel → Z
}.

(** ** Python helpers *)

(** [l[a:b]] for indices [0 <= a], [0 <= b]. *)
Definition slice {A} (a b : nat) (l : list A) : list A :=
  take (b - a) (drop a l).

(** [s.split("_")[0]]: the characters before the first underscore. *)
Fixpoint split_head (s : string) : string :=
  match s with
  | EmptyString => EmptyString
  | String c r => if Ascii.eqb c "_" then EmptyString else String c (split_head r)
  end.

(** [sep.join(l)]. *)
Fixpoint join (sep : string) (l : list string) : string :=
  match l with
  | [] => ""
  | [x] => x
  | x :: r => x +:+ sep +:+ join sep r
  end.

(** [os.path.join(a, b)] on a POSIX system. *)
Definition os_path_join (a b : string) : string :=
  if String.prefix "/" b then b
  else if String.eqb a "" then b
  else if String.eqb (String.substring (String.length a - 1) 1 a) "/" then a +:+ b
  else a +:+ "/" +:+ b.

(** [range(0, stop, step)] for a positive [step]; [fuel] bounds the number
    of iterations. *)
Fixpoint range_from (fuel : nat) (i stop step : nat) : list nat :=
  match fuel with
  | O => []
  | S fuel' => if i <? stop then i :: range_from fuel' (i + step) stop step else []
  end.

(** ** The effect monad: file system in, file system, trace and result out *)

Section Monad.
Context {D : Type}.

Definition M (A : Type) : Type :=
  gmap string (list D) → gmap string (list D) * list Event * Result A.

Definition ret {A} (a : A) : M A := fun fs => (fs, [], Ok a).

Definition raise {A} (e : Error) : M A := fun fs => (fs, [], Raise e).

Definition bind {A B} (m : M A) (f : A → M B) : M B := fun fs =>
  match m fs with
  | (fs1, t1, Ok a) =>
      match f a fs1 with
      | (fs2, t2, r) => (fs2, t1 ++ t2, r)
      end
  | (fs1, t1, Raise e) => (fs1, t1, Raise e)
  end.

Definition emit (e : Event) : M unit := fun fs => (fs, [e], Ok tt).

(** [os.path.exists(path)] *)
Definition path_exists (path : string) : M bool := fun fs =>
  (fs, [], Ok (bool_decide (is_Some (fs !! path)))).

(** [json.load] of an existing file. *)
Definition read_json (path : string) : M (list D) := fun fs =>
  match fs !! path with
  | Some content => (fs, [], Ok content)
  | None => (fs, [], Raise (FileNotFoundError path))
  end.

(** [with open(path, 'w') as file: json.dump(content, file)] *)
Definition write_json (path : string) (content : list D) : M unit := fun fs =>
  (<[path := content]> fs, [WriteFile path], Ok tt).

(** [try: m except FileNotFoundError: handler] *)
Definition catch_file_not_found {A} (m handler : M A) : M A := fun fs =>
  match m fs with
  | (fs1, t1, Raise (FileNotFoundError _)) =>
      match handler fs1 with
      | (fs2, t2, r) => (fs2, t1 ++ t2, r)
      end
  | other => other
  end.

(** [l[i]] *)
Definition index {A} (l : list A) (i : nat) : M A :=
  match l !! i with
  | Some x => ret x
  | None => raise IndexError
  end.
End Monad.

#[global] Instance M_ret {D} : MRet (@M D) := @ret D.
#[global] Instance M_bind {D} : MBind (@M D) := fun A B f m => bind m f.

(** ** The loader and the translation pipeline *)

Section Pipeline.
Context (env : Environment).

Abbreviation FS := (gmap string (list (Dict env))).
Abbreviation Mx := (@M (Dict env)).

Definition lift_backend {A} (what : string) (o : option A) : Mx A :=
  match o with
  | Some a => mret a
  | None => raise (BackendError what)
  end.

(** [os.path.join(TRAIN_TRANSLATED_DATASET_FOLDER,
    get_transtation_file_name(src_lang, dest_lang, mid_langs))] *)
Definition translation_path (src_lang dest_lang : string) (mid_langs : list string) : string :=
  os_path_join (TRAIN_TRANSLATED_DATASET_FOLDER env)
               (get_transtation_file_name env src_lang dest_lang mid_langs).

(** *** dataset_loaders.load_dataset_full, for [format='json'] (the only
    format the pipeline asks for) *)

(** First loop: one file name per entry of [src_langs]. *)
Fixpoint collect_file_names (dest_lang : string) (src_langs : list (list string))
  : Mx (list string) :=
  match src_langs with
  | [] => mret []
  | src_lang :: rest =>
      f ← match src_lang with
          | [] =>
              if String.eqb dest_lang "en" then mret (TRAIN_DATASET_EN env)
              else if String.eqb dest_lang "es" then mret (TRAIN_DATASET_ES env)
              else raise (ValueError ("Unknown language: " +:+ dest_lang))
          | first :: others => mret (translation_path first dest_lang others)
          end;
      file_name ← collect_file_names dest_lang rest;
      mret (f :: file_name)
  end.

(** Second loop: every file must exist; the arrays are concatenated. *)
Fixpoint read_files (file_name : list string) : Mx (list (Dict env)) :=
  match file_name with
  | [] => mret []
  | f :: rest =>
      found ← path_exists f;
      if found : bool then
        content ← read_json f;
        dataset ← read_files rest;
        mret (content ++ dataset)
      else raise (FileNotFoundError f)
  end.

Definition load_dataset_full (dest_lang : string) (src_langs : list (list string))
  : Mx (list (Dict env)) :=
  file_name ← collect_file_names dest_lang src_langs;
  read_files file_name.

(** *** dataset_processers *)

Definition _load_translation_model (src_lang dest_lang device : string)
  : Mx (MarianMTModel env * MarianTokenizer env) :=
  emit (LoadModel src_lang dest_lang);;
  let model_name := "Helsinki-NLP/opus-mt-" +:+ src_lang +:+ "-" +:+ dest_lang in
  tokenizer ← lift_backend model_name (tokenizer_from_pretrained env model_name);
  model ← lift_backend model_name (model_from_pretrained env model_name device);
  mret (model, tokenizer).

(** The chunk starting at token [i]. *)
Definition chunk_at (ids mask : list Z) (max_length i : nat) : BatchEncoding :=
  mkChunk (slice i (i + max_length) ids) (slice i (i + max_length) mask).

Definition _get_tokenized_chunks (text : string) (tokenizer : MarianTokenizer env)
    (max_length : Z) : Mx (list BatchEncoding) :=
  let '(ids, mask) := tokenize env tokenizer text in
  if (max_length =? 0)%Z then raise (ValueError "range() arg 3 must not be zero")
  else if (max_length <? 0)%Z then mret []
  else
    let step := Z.to_nat max_length in
    mret (map (chunk_at ids mask step) (range_from (length ids) 0 (length ids) step)).

(** The loop of [_translate_text] over the chunks. *)
Fixpoint translate_chunks (tokenizer : MarianTokenizer env) (model : MarianMTModel env)
    (tokenized_chunks : list BatchEncoding) : Mx (list string) :=
  match tokenized_chunks with
  | [] => mret []
  | chunk :: rest =>
      chunk_outputs ← lift_backend "generate" (generate env model chunk);
      let translated_chunk := decode env tokenizer chunk_outputs in
      transladed_chunks ← translate_chunks tokenizer model rest;
      mret (translated_chunk :: transladed_chunks)
  end.

Definition _translate_text (text : string) (tokenizer : MarianTokenizer env)
    (model : MarianMTModel env) : Mx string :=
  emit (TranslateText text);;
  let max_length := config_max_length env model in
  tokenized_chunks ← _get_tokenized_chunks text tokenizer (max_length `div` 2)%Z;
  transladed_chunks ← translate_chunks tokenizer model tokenized_chunks;
  mret (join " " transladed_chunks).

(** The id an element gets in hop [lang_index]. *)
Definition hop_id (translation_langs : list string) (lang_index : nat) (old_id : string)
  : string :=
  split_head old_id +:+ "_" +:+ join "_" (take (lang_index + 2) translation_langs).

(** The loop over the elements of one hop: new id, then translated text. *)
Fixpoint translate_elements (translation_langs : list string) (lang_index : nat)
    (tokenizer : MarianTokenizer env) (model : MarianMTModel env)
    (dataset : list DatasetElement) : Mx (list DatasetElement) :=
  match dataset with
  | [] => mret []
  | element :: rest =>
      let new_id := hop_id translation_langs lang_index (id element) in
      new_text ← _translate_text (text element) tokenizer model;
      others ← translate_elements translation_langs lang_index tokenizer model rest;
      mret (mkElement new_id new_text (category element) :: others)
  end.

(** One iteration of the last loop of [_translate_dataset]. *)
Definition translate_hop (translation_langs : list string) (device : string)
    (lang_index : nat) (translated_dataset : list DatasetElement)
  : Mx (list DatasetElement) :=
  src_lang ← index translation_langs lang_index;
  dest_lang ← index translation_langs (lang_index + 1);
  '(model, tokenizer) ← _load_translation_model src_lang dest_lang device;
  translated_dataset ← translate_elements translation_langs lang_index tokenizer model
                         translated_dataset;
  let dataset_dict := dataset_to_dict env translated_dataset in
  first ← index translation_langs 0;
  write_json (translation_path first dest_lang (slice 1 (lang_index + 1) translation_langs))
             dataset_dict;;
  mret translated_dataset.

Fixpoint translate_hops (translation_langs : list string) (device : string)
    (lang_indexes : list nat) (translated_dataset : list DatasetElement)
  : Mx (list DatasetElement) :=
  match lang_indexes with
  | [] => mret translated_dataset
  | lang_index :: rest =>
      translated_dataset ← translate_hop translation_langs device lang_index
                             translated_dataset;
      translate_hops translation_langs device rest translated_dataset
  end.

(** The validation loop over [zip(translation_langs[:-1], translation_langs[1:])]. *)
Fixpoint check_transitions (pairs : list (string * string)) : Mx unit :=
  match pairs with
  | [] => mret tt
  | (src_lang, dest_lang) :: rest =>
      if String.eqb src_lang dest_lang then
        raise (ValueError
          "Source and destination languages must be different for each transition.")
      else check_transitions rest
  end.

(** The backward scan [for last_transition_index in range(len - 1, 0, -1)]:
    the first cached prefix met sets [new_src_index] and replaces the
    dataset; when the range is exhausted both keep their initial value. *)
Fixpoint find_cached_prefix (translation_langs : list string)
    (last_transition_index : nat) (translated_dataset : list DatasetElement)
  : Mx (nat * list DatasetElement) :=
  match last_transition_index with
  | O => mret (0, translated_dataset)
  | S below =>
      src_lang ← index translation_langs 0;
      dest_lang ← index translation_langs last_transition_index;
      let mid_langs := slice 1 last_transition_index translation_langs in
      found ← path_exists (translation_path src_lang dest_lang mid_langs);
      if found : bool then
        cached ← load_dataset_full dest_lang [src_lang :: mid_langs];
        mret (last_transition_index, dataset_from_dict env cached)
      else find_cached_prefix translation_langs below translated_dataset
  end.

Definition _translate_dataset (src_lang dest_lang : string)
    (transition_langs : list string) (device : string) : Mx (list DatasetElement) :=
  base ← load_dataset_full src_lang [[src_lang]];
  let translated_dataset := dataset_from_dict env base in
  if (length transition_langs =? 0) && String.eqb src_lang dest_lang then
    mret translated_dataset
  else
    let translation_langs := [src_lang] ++ transition_langs ++ [dest_lang] in
    check_transitions (zip (removelast translation_langs) (tail translation_langs));;
    '(new_src_index, translated_dataset) ←
      find_cached_prefix translation_langs (length translation_langs - 1)
                         translated_dataset;
    translate_hops translation_langs device
      (seq new_src_index (length translation_langs - 1 - new_src_index))
      translated_dataset.

(** [os.makedirs(TRAIN_TRANSLATED_DATASET_FOLDER, exist_ok=True)] creates
    a directory and touches no file: it leaves the file map as it is. *)
Definition os_makedirs (path : string) : Mx unit := mret tt.

Definition get_translated_dataset (src_lang dest_lang : string)
    (transition_langs : list string) : Mx (list DatasetElement) :=
  if String.eqb src_lang dest_lang && (length transition_langs =? 0) then
    loaded ← load_dataset_full dest_lang [[dest_lang]];
    mret (dataset_from_dict env loaded)
  else
    os_makedirs (TRAIN_TRANSLATED_DATASET_FOLDER env);;
    catch_file_not_found
      (loaded ← load_dataset_full dest_lang [src_lang :: transition_langs];
       mret (dataset_from_dict env loaded))
      (_translate_dataset src_lang dest_lang transition_langs "cuda").

End Pipeline.

(** ** A small concrete environment, used to run the pipeline on examples *)

Module Demo.

(** One character per token. *)
Fixpoint codes (s : string) : list Z :=
  match s with
  | EmptyString => []
  | String c r => Z.of_nat (nat_of_ascii c) :: codes r
  end.

Fixpoint uncodes (l : list Z) : string :=
  match l with
  | [] => EmptyString
  | z :: r => String (ascii_of_nat (Z.to_nat z)) (uncodes r)
  end.

(** Cache files are named after the whole chain. *)
Definition file_name (src_lang dest_lang : string) (mid_langs : list string) : string :=
  join "_" (src_lang :: mid_langs ++ [dest_lang]) +:+ ".json".

(** The last three characters of a model name. *)
Definition name_end (name : string) : string :=
  String.substring (String.length name - 3) 3 name.

(** Every pair has a model except those going to "xx".  A model is a flag:
    the models going to "de" are strict and fail to generate from a chunk
    holding the token of "!".  A translation is the chunk reversed. *)
Definition env : Environment := {|
  TRAIN_DATASET_EN := "data/en.json";
  TRAIN_DATASET_ES := "data/es.json";
  TRAIN_TRANSLATED_DATASET_FOLDER := "translated";
  get_transtation_file_name := file_name;
  Dict := DatasetElement;
  dataset_from_dict := fun d => d;
  dataset_to_dict := fun d => d;
  MarianTokenizer := unit;
  MarianMTModel := bool;
  tokenizer_from_pretrained := fun _ => Some tt;
  model_from_pretrained := fun name _ =>
    if String.eqb (name_end name) "-xx" then None
    else Some (String.eqb (name_end name) "-de");
  tokenize := fun _ s => (codes s, map (fun _ => 1%Z) (codes s));
  generate := fun strict chunk =>
    if strict && existsb (Z.eqb 33) (input_ids chunk) then None
    else Some (rev (input_ids chunk));
  decode := fun _ l => uncodes l;
  config_max_length := fun _ => 6%Z
|}.

Definition e7 : DatasetElement := mkElement "7" "hello world" "CRITICAL".
Definition e8 : DatasetElement := mkElement "8" "abc" "CONSPIRACY".
Definition e9 : DatasetElement := mkElement "9" "no!" "CRITICAL".

(** The same elements as the hop en -> fr leaves them. *)
Definition e7_fr : DatasetElement := mkElement "7_en_fr" "leh  ol row dl" "CRITICAL".
Definition e8_fr : DatasetElement := mkElement "8_en_fr" "cba" "CONSPIRACY".

(** Only the base dataset of "en". *)
Definition fs_base : gmap string (list DatasetElement) :=
  {[ "translated/en_en.json" := [e7; e8] ]}.

(** The base dataset of "en" and the cached prefix en -> fr. *)
Definition fs_prefix : gmap string (list DatasetElement) :=
  <[ "translated/en_fr.json" := [e7_fr; e8_fr] ]> fs_base.

(** A cached prefix en -> fr, but no base dataset. *)
Definition fs_no_base : gmap string (list DatasetElement) :=
  {[ "translated/en_fr.json" := [e7_fr; e8_fr] ]}.

(** The base dataset of "en" and a file for the chain en, en, es. *)
Definition fs_cached_invalid : gmap string (list DatasetElement) :=
  <[ "translated/en_en_es.json" := [e7; e8] ]> fs_base.

End Demo.

(** ** Specification vocabulary *)

(** The model loads of a trace, in order. *)
Definition model_loads (t : list Event) : list (string * string) :=
  omap (fun e => match e with LoadModel s d => Some (s, d) | _ => None end) t.

(** The cache writes of a trace, in order. *)
Definition file_writes (t : list Event) : list string :=
  omap (fun e => match e with WriteFile p => Some p | _ => None end) t.

(** The texts handed to the translation engine, in order. *)
Definition translated_texts (t : list Event) : list string :=
  omap (fun e => match e with TranslateText x => Some x | _ => None end) t.

(** The language pair of hop [i] of a chain. *)
Definition hop_langs (chain : list string) (i : nat) : option (string * string) :=
  match chain !! i, chain !! (i + 1) with
  | Some s, Some d => Some (s, d)
  | _, _ => None
  end.

(** Two equal consecutive languages somewhere in the chain. *)
Definition adjacent_duplicate (chain : list string) : Prop :=
  ∃ i a, chain !! i = Some a ∧ chain !! (i + 1) = Some a.

(** The hop chain of a request. *)
Definition translation_langs (src_lang : string) (transition_langs : list string)
    (dest_lang : string) : list string :=
  [src_lang] ++ transition_langs ++ [dest_lang].

(** The degenerate request: same language, no intermediate hop. *)
Definition degenerate (src_lang dest_lang : string) (transition_langs : list string) : Prop :=
  src_lang = dest_lang ∧ transition_langs = [].

(** The trace of one completed hop over a dataset of [n] elements: the
    model is loaded, [n] texts are translated, then the file is written. *)
Inductive hop_block (n : nat) : list Event → Prop :=
| HopBlock s d xs p :
    length xs = n →
    hop_block n (LoadModel s d :: map TranslateText xs ++ [WriteFile p]).

(** No underscore in a string (a numeric id has none). *)
Fixpoint underscore_free (s : string) : bool :=
  match s with
  | EmptyString => true
  | String c r => negb (Ascii.eqb c "_") && underscore_free r
  end.

(** [ceil(n / m)] *)
Definition ceil_div (n m : nat) : nat := (n + m - 1) / m.

Section Vocabulary.
Context (env : Environment).

(** The cache file of the prefix [chain[0..i]] of a chain. *)
Definition prefix_path (chain : list string) (i : nat) : string :=
  translation_path env (default "" (chain !! 0)) (default "" (chain !! i)) (slice 1 i chain).

End Vocabulary.

(** ** The rest of the loader: vocabulary *)

Section LoaderVocabulary.
Context (env : Environment).

(** The file an entry of [src_langs] stands for when the destination
    language is one the loader knows: the official dataset for an empty
    entry, the translated file named by the entry otherwise. *)
Definition entry_file (dest_lang : string) (src_lang : list string) : string :=
  match src_lang with
  | [] => if String.eqb dest_lang "en" then TRAIN_DATASET_EN env else TRAIN_DATASET_ES env
  | first :: others => translation_path env first dest_lang others
  end.

(** The destination language is known wherever the loader looks it up. *)
Definition language_known (dest_lang : string) (src_langs : list (list string)) : Prop :=
  [] ∈ src_langs → dest_lang = "en" ∨ dest_lang = "es".

End LoaderVocabulary.

(** ** Word masking: [dataset_processers.mask_texts] *)

(** [s.split(' ')]: the pieces between single spaces, empty pieces kept. *)
Fixpoint split_space (s : string) : list string :=
  match s with
  | EmptyString => [EmptyString]
  | String c r =>
      if Ascii.eqb c " " then EmptyString :: split_space r
      else match split_space r with
           | w :: ws => String c w :: ws
           | [] => [String c EmptyString]
           end
  end.

(** No space in a string. *)
Fixpoint space_free (s : string) : bool :=
  match s with
  | EmptyString => true
  | String c r => negb (Ascii.eqb c " ") && space_free r
  end.

Section Masking.
(** [str.lower], the floats with their [<], the successive values returned
    by [np.random.rand()], the path [Path(__file__).parent / 'mask_words' /
    f'{lang}_words.txt'] of a language and [str.splitlines] are taken as
    they come from Python and its libraries. *)
Variable str_lower : string → string.
Variable Float : Type.
Variable float_lt : Float → Float → bool.
Variable rand : nat → Float.
Variable mask_words_path : string → string.
Variable splitlines : string → list string.

(** The text files on disk are a map from paths to contents. *)
Definition load_mask_words (lang : string) (files : gmap string string)
  : Result (list string) :=
  let file_path := mask_words_path lang in
  match files !! file_path with
  | Some content => Ok (splitlines content)
  | None => Raise (FileNotFoundError file_path)
  end.

(** The loop of [mask_words] over the words of one text; [drawn] counts
    the calls to [np.random.rand()] made so far. *)
Fixpoint mask_word_loop (mask_token : string) (default_mask_prob special_mask_prob : Float)
    (mask_word_list : list string) (words : list string) (drawn : nat)
  : list string * nat :=
  match words with
  | [] => ([], drawn)
  | word :: rest =>
      let mask_prob :=
        if bool_decide (str_lower word ∈ mask_word_list) then special_mask_prob
        else default_mask_prob in
      let masked := if float_lt (rand drawn) mask_prob then mask_token else word in
      let '(masked_words, drawn') :=
        mask_word_loop mask_token default_mask_prob special_mask_prob mask_word_list
                       rest (S drawn) in
      (masked :: masked_words, drawn')
  end.

Definition mask_words (mask_token : string) (default_mask_prob special_mask_prob : Float)
    (mask_word_list : list string) (text : string) (drawn : nat) : string * nat :=
  let words := split_space text in
  let '(masked_words, drawn') :=
    mask_word_loop mask_token default_mask_prob special_mask_prob mask_word_list
                   words drawn in
  (join " " masked_words, drawn').

(** [texts.apply(mask_words)]: the texts in order. *)
Fixpoint apply_mask_words (mask_token : string) (default_mask_prob special_mask_prob : Float)
    (mask_word_list : list string) (texts : list string) (drawn : nat)
  : list string * nat :=
  match texts with
  | [] => ([], drawn)
  | text :: rest =>
      let '(masked_text, drawn') :=
        mask_words mask_token default_mask_prob special_mask_prob mask_word_list
                   text drawn in
      let '(masked_texts, drawn'') :=
        apply_mask_words mask_token default_mask_prob special_mask_prob mask_word_list
                         rest drawn' in
      (masked_text :: masked_texts, drawn'')
  end.

Definition mask_texts (texts : list string) (mask_token lang : string)
    (default_mask_prob special_mask_prob : Float) (mask_word_list : option (list string))
    (files : gmap string string) (drawn : nat) : Result (list string) * nat :=
  let loaded :=
    match mask_word_list with
    | None => load_mask_words lang files
    | Some given => Ok given
    end in
  match loaded with
  | Raise e => (Raise e, drawn)
  | Ok mask_word_list =>
      let '(masked_texts, drawn') :=
        apply_mask_words mask_token default_mask_prob special_mask_prob mask_word_list
                         texts drawn in
      (Ok masked_texts, drawn')
  end.

(** The number of words of a list of texts. *)
Definition word_count (texts : list string) : nat :=
  sum_list (map (fun text => length (split_space text)) texts).

End Masking.

(** ** Exceptions beyond those of the translation pipeline *)

(** The exceptions of the functions below: those of the pipeline, and the
    [KeyError] of a dictionary lookup and the [AssertionError]. *)
Inductive Exception :=
| Builtin (e : Error)
| KeyError (key : string)
| KeyErrorIndex (key : nat)
| AssertionError.

Inductive Outcome (A : Type) :=
| Returned (a : A)
| Raised (e : Exception).
Arguments Returned {A} a.
Arguments Raised {A} e.

(** ** Class labels of the classifier wrapper:
    [hf_skelarn_wrapper.SklearnTransformerClassif] *)

(** The order of Python strings. *)
Definition string_le (s1 s2 : string) : Prop := String.leb s1 s2 = true.

#[global] Instance string_le_dec : RelDecision string_le.
Proof. intros s1 s2. unfold string_le. apply _. Defined.

#[global] Instance string_le_total : Total string_le.
Proof. intros s1 s2. apply String.leb_total. Qed.

(** [sorted(list(set(labels)))]: the distinct labels in ascending order. *)
Definition sorted_set (labels : list string) : list string :=
  merge_sort string_le (remove_dups labels).

(** [enumerate(l)] *)
Definition enumerate {A} (l : list A) : list (nat * A) :=
  imap (fun ix x => (ix, x)) l.

(** A dictionary comprehension over pairs: a later pair replaces an
    earlier one with the same key. *)
Definition dict_of {K V} `{Countable K} (pairs : list (K * V)) : gmap K V :=
  foldl (fun d kv => <[kv.1 := kv.2]> d) ∅ pairs.

(** The attributes [_init_classes] sets. *)
Record Classes := mkClasses {
  _class_labels : list string;
  _num_classes : nat;
  _cls_ix2label : gmap nat string;
  _cls_label2ix : gmap string nat
}.

(** [set_string_labels]: the new value of [_str_labels], or the failed
    assertion. *)
Definition set_string_labels (labels : list string) : Outcome (list string) :=
  if length labels =? length (remove_dups labels) then Returned labels
  else Raised AssertionError.

(** [_init_classes]; [_str_labels] is [None] when the attribute is not set. *)
Definition _init_classes (_str_labels : option (list string)) (labels : list string)
  : Classes :=
  let class_labels :=
    match _str_labels with
    | None => sorted_set labels
    | Some given => given
    end in
  {| _class_labels := class_labels;
     _num_classes := length class_labels;
     _cls_ix2label := dict_of (enumerate class_labels);
     _cls_label2ix := dict_of (map (fun p => (p.2, p.1)) (enumerate class_labels)) |}.

Fixpoint _labels2indices (self : Classes) (labels : list string) : Outcome (list nat) :=
  match labels with
  | [] => Returned []
  | l :: rest =>
      match _cls_label2ix self !! l with
      | None => Raised (KeyError l)
      | Some ix =>
          match _labels2indices self rest with
          | Returned ixs => Returned (ix :: ixs)
          | Raised e => Raised e
          end
      end
  end.

Fixpoint _indices2labels (self : Classes) (indices : list nat) : Outcome (list string) :=
  match indices with
  | [] => Returned []
  | ix :: rest =>
      match _cls_ix2label self !! ix with
      | None => Raised (KeyErrorIndex ix)
      | Some l =>
          match _indices2labels self rest with
          | Returned ls => Returned (l :: ls)
          | Raised e => Raised e
          end
      end
  end.

(** ** The classification view of a dataset:
    [dataset_loaders.load_dataset_classification] and
    [load_texts_and_ids_from_json] *)

(** The class column: the string labels, or their binary codes. *)
Inductive ClassColumn :=
| StringLabels (labels : list string)
| BinaryLabels (codes : list Z).

Section Classification.
Context (env : Environment).
(** [doc[key]] for the keys that hold a string ('text', 'category', 'id'),
    [None] when the document lacks the key, and the two dictionaries
    [BINARY_MAPPING_CONSPIRACY_POS] and [BINARY_MAPPING_CRITICAL_POS] of
    [dataset_utils]. *)
Variable field : Dict env → string → option string.
Variable BINARY_MAPPING_CONSPIRACY_POS : gmap string Z.
Variable BINARY_MAPPING_CRITICAL_POS : gmap string Z.

(** [[doc[key] for doc in dataset]] *)
Fixpoint column (key : string) (dataset : list (Dict env)) : Outcome (list string) :=
  match dataset with
  | [] => Returned []
  | doc :: rest =>
      match field doc key with
      | None => Raised (KeyError key)
      | Some value =>
          match column key rest with
          | Returned values => Returned (value :: values)
          | Raised e => Raised e
          end
      end
  end.

(** [[binmap[doc['category']] for doc in dataset]] *)
Fixpoint binary_column (binmap : gmap string Z) (dataset : list (Dict env))
  : Outcome (list Z) :=
  match dataset with
  | [] => Returned []
  | doc :: rest =>
      match field doc "category" with
      | None => Raised (KeyError "category")
      | Some category =>
          match binmap !! category with
          | None => Raised (KeyError category)
          | Some code =>
              match binary_column binmap rest with
              | Returned codes => Returned (code :: codes)
              | Raised e => Raised e
              end
          end
      end
  end.

(** The body of [load_dataset_classification] after the load. *)
Definition classification_columns (dataset : list (Dict env)) (string_labels : bool)
    (positive_class : string) : Outcome (list string * ClassColumn * list string) :=
  match column "text" dataset with
  | Raised e => Raised e
  | Returned texts =>
      let classes :=
        if string_labels then
          match column "category" dataset with
          | Returned labels => Returned (StringLabels labels)
          | Raised e => Raised e
          end
        else
          let binmap :=
            if String.eqb positive_class "conspiracy"
            then Returned BINARY_MAPPING_CONSPIRACY_POS
            else if String.eqb positive_class "critical"
            then Returned BINARY_MAPPING_CRITICAL_POS
            else Raised (Builtin (ValueError ("Unknown positive class: " +:+ positive_class))) in
          match binmap with
          | Raised e => Raised e
          | Returned binmap =>
              match binary_column binmap dataset with
              | Returned codes => Returned (BinaryLabels codes)
              | Raised e => Raised e
              end
          end in
      match classes with
      | Raised e => Raised e
      | Returned classes =>
          match column "id" dataset with
          | Returned ids => Returned (texts, classes, ids)
          | Raised e => Raised e
          end
      end
  end.

Definition load_dataset_classification (lang : string) (src_langs : list (list string))
    (string_labels : bool) (positive_class : string) (fs : gmap string (list (Dict env)))
  : gmap string (list (Dict env)) * list Event
    * Outcome (list string * ClassColumn * list string) :=
  match load_dataset_full env lang src_langs fs with
  | (fs', t, Raise e) => (fs', t, Raised (Builtin e))
  | (fs', t, Ok dataset) =>
      (fs', t, classification_columns dataset string_labels positive_class)
  end.

Definition load_texts_and_ids_from_json (json_file : string)
    (fs : gmap string (list (Dict env)))
  : gmap string (list (Dict env)) * list Event * Outcome (list string * list string) :=
  match read_json json_file fs with
  | (fs', t, Raise e) => (fs', t, Raised (Builtin e))
  | (fs', t, Ok data) =>
      (fs', t,
       match column "text" data with
       | Raised e => Raised e
       | Returned texts =>
           match column "id" data with
           | Returned ids => Returned (texts, ids)
           | Raised e => Raised e
           end
       end)
  end.

End Classification.

(** ** Concrete instances for the further examples *)

Module Demo2.

(** The environment of [Demo] with two short maximum generation lengths:
    1 for the strict models (those going to "de") and -4 for the others. *)
Definition env_short : Environment := {|
  TRAIN_DATASET_EN := "data/en.json";
  TRAIN_DATASET_ES := "data/es.json";
  TRAIN_TRANSLATED_DATASET_FOLDER := "translated";
  get_transtation_file_name := Demo.file_name;
  Dict := DatasetElement;
  dataset_from_dict := fun d => d;
  dataset_to_dict := fun d => d;
  MarianTokenizer := unit;
  MarianMTModel := bool;
  tokenizer_from_pretrained := fun _ => Some tt;
  model_from_pretrained := fun name _ =>
    if String.eqb (Demo.name_end name) "-xx" then None
    else Some (String.eqb (Demo.name_end name) "-de");
  tokenize := fun _ s => (Demo.codes s, map (fun _ => 1%Z) (Demo.codes s));
  generate := fun _ chunk => Some (rev (input_ids chunk));
  decode := fun _ l => Demo.uncodes l;
  config_max_length := fun strict => if strict : bool then 1%Z else (-4)%Z
|}.

(** The official English dataset and two translated files. *)
Definition o1 : DatasetElement := mkElement "1" "one" "CRITICAL".
Definition o2 : DatasetElement := mkElement "2" "two" "CONSPIRACY".
Definition o3 : DatasetElement := mkElement "3" "three" "OTHER".

Definition fs_official : gmap string (list DatasetElement) :=
  {[ "data/en.json" := [o1];
     "translated/es_en.json" := [o2];
     "translated/fr_en.json" := [o2; o3] ]}.

(** The keys of a document of the demo datasets. *)
Definition field (doc : DatasetElement) (key : string) : option string :=
  if String.eqb key "text" then Some (text doc)
  else if String.eqb key "category" then Some (category doc)
  else if String.eqb key "id" then Some (id doc)
  else None.

Definition conspiracy_pos : gmap string Z := {[ "CONSPIRACY" := 1%Z; "CRITICAL" := 0%Z ]}.
Definition critical_pos : gmap string Z := {[ "CONSPIRACY" := 0%Z; "CRITICAL" := 1%Z ]}.

(** Lower case of the ASCII letters. *)
Definition lower_ascii (c : ascii) : ascii :=
  let n := nat_of_ascii c in
  if (65 <=? n) && (n <=? 90) then ascii_of_nat (n + 32) else c.

Fixpoint lower (s : string) : string :=
  match s with
  | EmptyString => EmptyString
  | String c r => String (lower_ascii c) (lower r)
  end.

(** Random values and probabilities in hundredths; the draws go 10, 47,
    84, 21, ... *)
Definition draws (k : nat) : nat := (10 + k * 37) mod 100.

Definition words_path (lang : string) : string := "mask_words/" +:+ lang +:+ "_words.txt".

(** A words file of one line. *)
Definition one_line (content : string) : list string := [content].

(** Documents as the JSON objects they are: a document may lack a key.
    The engine is that of [Demo]. *)
Definition json_element (doc : gmap string string) : DatasetElement :=
  mkElement (default "" (doc !! "id")) (default "" (doc !! "text"))
            (default "" (doc !! "category")).

Definition json_dict (e : DatasetElement) : gmap string string :=
  {[ "id" := id e; "text" := text e; "category" := category e ]}.

Definition env_json : Environment := {|
  TRAIN_DATASET_EN := "data/en.json";
  TRAIN_DATASET_ES := "data/es.json";
  TRAIN_TRANSLATED_DATASET_FOLDER := "translated";
  get_transtation_file_name := Demo.file_name;
  Dict := gmap string string;
  dataset_from_dict := map json_element;
  dataset_to_dict := map json_dict;
  MarianTokenizer := unit;
  MarianMTModel := bool;
  tokenizer_from_pretrained := fun _ => Some tt;
  model_from_pretrained := fun name _ =>
    if String.eqb (Demo.name_end name) "-xx" then None
    else Some (String.eqb (Demo.name_end name) "-de");
  tokenize := fun _ s => (Demo.codes s, map (fun _ => 1%Z) (Demo.codes s));
  generate := fun _ chunk => Some (rev (input_ids chunk));
  decode := fun _ l => Demo.uncodes l;
  config_max_length := fun _ => 6%Z
|}.

(** [doc[key]] of a JSON object. *)
Definition json_field (doc : gmap string string) (key : string) : option string :=
  doc !! key.

(** A complete document, and a document without the 'text' key. *)
Definition j1 : gmap string string :=
  {[ "id" := "1"; "text" := "one"; "category" := "CRITICAL" ]}.
Definition j2 : gmap string string :=
  {[ "id" := "2"; "category" := "CONSPIRACY" ]}.

(** The Spanish file is complete; the second document of the English file
    has no text. *)
Definition fs_json : gmap string (list (gmap string string)) :=
  {[ "data/en.json" := [j1; j2];
     "data/es.json" := [j1] ]}.

End Demo2.

(** ** Running the monad *)

Ltac unfold_monad :=
  unfold mbind, M_bind, mret, M_ret, bind, ret, raise, emit, path_exists, read_json,
    write_json, index in *.

Section MonadFacts.
Context {D : Type}.
Implicit Types fs : gmap string (list D).

Lemma bind_run {A B} (m : M A) (f : A → M B) fs :
  (m ≫= f) fs =
    match m fs with
    | (fs1, t1, Ok a) => let '(fs2, t2, r) := f a fs1 in (fs2, t1 ++ t2, r)
    | (fs1, t1, Raise e) => (fs1, t1, Raise e)
    end.
Proof. reflexivity. Qed.

Lemma bind_pure_ok {A B} (m : M A) (f : A → M B) fs a :
  m fs = (fs, [], Ok a) → (m ≫= f) fs = f a fs.
Proof. intros H. rewrite bind_run, H. by destruct (f a fs) as [[??]?]. Qed.

Lemma bind_pure_raise {A B} (m : M A) (f : A → M B) fs e :
  m fs = (fs, [], Raise e) → (m ≫= f) fs = (fs, [], Raise e).
Proof. intros H. by rewrite bind_run, H. Qed.

Lemma index_run {A} (l : list A) i fs :
  index l i fs = (fs, [], match l !! i with Some x => Ok x | None => Raise IndexError end).
Proof. unfold index. by destruct (l !! i). Qed.

Lemma index_some {A} (l : list A) i x fs :
  l !! i = Some x → index l i fs = (fs, [], Ok x).
Proof. intros H. by rewrite index_run, H. Qed.

End MonadFacts.

(** ** The loader and the read-only steps *)

Section ReadOnly.
Context (env : Environment).
Implicit Types fs : gmap string (list (Dict env)).

(** Loading one translated file: its content, or [FileNotFoundError]. *)
Lemma load_dataset_full_run dest_lang first others fs :
  load_dataset_full env dest_lang [first :: others] fs =
    (fs, [], match fs !! translation_path env first dest_lang others with
             | Some content => Ok content
             | None => Raise (FileNotFoundError (translation_path env first dest_lang others))
             end).
Proof.
  unfold load_dataset_full. simpl. unfold_monad. simpl. unfold_monad.
  destruct (fs !! translation_path env first dest_lang others) as [c|] eqn:E.
  - rewrite bool_decide_true by eauto. rewrite E. simpl. by rewrite app_nil_r.
  - rewrite bool_decide_false; [done|]. by intros [? ?].
Qed.

Lemma check_transitions_run pairs fs :
  ∃ r, check_transitions env pairs fs = (fs, [], r) ∧
       (r = Ok tt ↔ Forall (fun p => p.1 ≠ p.2) pairs) ∧
       (r ≠ Ok tt → ∃ msg, r = Raise (ValueError msg)).
Proof.
  induction pairs as [|[s d] rest IH]; simpl.
  - eexists; split; [reflexivity|]. split; [|done]. split; auto.
  - destruct (String.eqb_spec s d) as [->|Hne].
    + eexists; split; [reflexivity|]. split; [|eauto]. split; [done|].
      intros H. inversion H; subst. simpl in *. congruence.
    + destruct IH as (r & -> & Hr & Hr'). exists r. split; [done|]. split; [|done].
      rewrite Hr. split; [by constructor|]. by inversion 1.
Qed.

(** The pairs the validation loop visits are the hops of the chain. *)
Lemma zip_hops_lookup (chain : list string) i s d :
  zip (removelast chain) (tail chain) !! i = Some (s, d) ↔
  chain !! i = Some s ∧ chain !! (i + 1) = Some d.
Proof.
  revert i. induction chain as [|a [|b rest] IH]; intros i.
  - simpl. rewrite !lookup_nil. split; [done|]. by intros [? _].
  - simpl. rewrite lookup_nil. split; [done|]. intros [_ H].
    rewrite Nat.add_1_r in H. done.
  - change (removelast (a :: b :: rest)) with (a :: removelast (b :: rest)).
    change (tail (a :: b :: rest)) with (b :: rest).
    destruct i as [|i].
    + simpl. split; [intros [= -> ->]; done | intros [[= ->] [= ->]]; done].
    + change (zip (a :: removelast (b :: rest)) (b :: rest) !! S i)
        with (zip (removelast (b :: rest)) (tail (b :: rest)) !! i).
      rewrite IH. simpl. done.
Qed.

Lemma valid_iff_no_adjacent_duplicate (chain : list string) :
  Forall (fun p : string * string => p.1 ≠ p.2) (zip (removelast chain) (tail chain)) ↔
  ¬ adjacent_duplicate chain.
Proof.
  rewrite Forall_lookup. split.
  - intros H (i & a & H1 & H2).
    assert (zip (removelast chain) (tail chain) !! i = Some (a, a)) as Hz
      by (apply zip_hops_lookup; done).
    by apply H in Hz.
  - intros H i [s d] Hz. simpl. intros ->. apply H. exists i, d.
    by apply zip_hops_lookup.
Qed.

(** The backward scan reads the file system only, always returns, and
    returns the largest cached index it was allowed to look at. *)
Lemma find_cached_prefix_run (chain : list string) n ds fs :
  n < length chain →
  ∃ k ds0,
    find_cached_prefix env chain n ds fs = (fs, [], Ok (k, ds0)) ∧
    k ≤ n ∧
    (∀ i, k < i ≤ n → fs !! prefix_path env chain i = None) ∧
    (k = 0 → ds0 = ds) ∧
    (0 < k → ∃ c, fs !! prefix_path env chain k = Some c ∧ ds0 = dataset_from_dict env c).
Proof.
  induction n as [|n IH]; intros Hn.
  - exists 0, ds. simpl. repeat split; try done; intros; lia.
  - destruct (lookup_lt_is_Some_2 chain 0 ltac:(lia)) as [first H0].
    destruct (lookup_lt_is_Some_2 chain (S n) Hn) as [d Hd].
    cbn [find_cached_prefix].
    rewrite (bind_pure_ok _ _ _ _ (index_some _ _ _ fs H0)).
    rewrite (bind_pure_ok _ _ _ _ (index_some _ _ _ fs Hd)).
    assert (prefix_path env chain (S n) = translation_path env first d (slice 1 (S n) chain))
      as Hp by (unfold prefix_path; by rewrite H0, Hd).
    rewrite <- Hp.
    destruct (fs !! prefix_path env chain (S n)) as [c|] eqn:E.
    + exists (S n), (dataset_from_dict env c).
      rewrite bind_run. unfold path_exists. rewrite bool_decide_true by eauto.
      simpl. rewrite bind_run, load_dataset_full_run, <- Hp, E. simpl.
      repeat split; try done; try lia. intros _. eauto.
    + destruct IH as (k & ds0 & Hrun & Hk & Habs & Hz & Hpos); [lia|].
      exists k, ds0. rewrite bind_run. unfold path_exists.
      rewrite bool_decide_false by (rewrite E; by intros [? ?]).
      simpl. rewrite Hrun. repeat split; try done; try lia.
      intros i Hi. destruct (decide (i = S n)) as [->|]; [done|]. apply Habs. lia.
Qed.

End ReadOnly.

(** ** Chunked translation of one text *)

Lemma ceil_div_zero m : 0 < m → ceil_div 0 m = 0.
Proof. intros. unfold ceil_div. apply Nat.div_small. lia. Qed.

Lemma ceil_div_step n m : 0 < m → 0 < n → ceil_div n m = S (ceil_div (n - m) m).
Proof.
  intros Hm Hn. unfold ceil_div. destruct (le_lt_dec m n) as [Hle|Hlt].
  - replace (n + m - 1) with ((n - m + m - 1) + 1 * m) by lia.
    rewrite Nat.div_add by lia. lia.
  - replace (n - m) with 0 by lia. simpl (0 + m - 1).
    rewrite (Nat.div_small (m - 1) m) by lia.
    symmetry. apply (Nat.div_unique _ _ _ (n - 1)); lia.
Qed.

Lemma ceil_div_covers n m : 0 < m → n ≤ ceil_div n m * m.
Proof.
  intros Hm. unfold ceil_div.
  pose proof (Nat.div_mod (n + m - 1) m ltac:(lia)) as Hdm.
  pose proof (Nat.mod_upper_bound (n + m - 1) m ltac:(lia)). nia.
Qed.

(** The loop indices of [range(0, stop, step)]. *)
Lemma range_from_spec fuel i stop step :
  0 < step → stop - i ≤ fuel →
  range_from fuel i stop step =
    map (fun j => i + j * step) (seq 0 (ceil_div (stop - i) step)).
Proof.
  intros Hstep. revert i. induction fuel as [|fuel IH]; intros i Hfuel.
  - replace (stop - i) with 0 by lia. by rewrite ceil_div_zero.
  - simpl. destruct (Nat.ltb_spec i stop) as [Hlt|Hge].
    + rewrite IH by lia. rewrite (ceil_div_step (stop - i)) by lia.
      replace (stop - (i + step)) with (stop - i - step) by lia.
      simpl. f_equal; [lia|]. rewrite <- seq_shift, map_map.
      apply map_ext. intros j. simpl. lia.
    + replace (stop - i) with 0 by lia. by rewrite ceil_div_zero.
Qed.

Lemma concat_slices {A} (l : list A) m c :
  concat (map (fun j => take m (drop (j * m) l)) (seq 0 c)) = take (c * m) l.
Proof.
  induction c as [|c IH]; [done|].
  rewrite seq_S, map_app, concat_app, IH. simpl. rewrite app_nil_r.
  rewrite take_take_drop. f_equal. lia.
Qed.

Section Engine.
Context (env : Environment).
Implicit Types fs : gmap string (list (Dict env)).

(** The chunks of a token sequence for a positive chunk size. *)
Lemma _get_tokenized_chunks_run text tokenizer (max_length : Z) ids mask fs :
  tokenize env tokenizer text = (ids, mask) → (0 < max_length)%Z →
  _get_tokenized_chunks env text tokenizer max_length fs =
    (fs, [], Ok (map (fun j => chunk_at ids mask (Z.to_nat max_length)
                                  (j * Z.to_nat max_length))
                     (seq 0 (ceil_div (length ids) (Z.to_nat max_length))))).
Proof.
  intros Htok Hpos. unfold _get_tokenized_chunks. rewrite Htok.
  destruct (Z.eqb_spec max_length 0) as [|_]; [lia|].
  destruct (Z.ltb_spec max_length 0) as [|_]; [lia|].
  rewrite range_from_spec by lia. rewrite Nat.sub_0_r, map_map. reflexivity.
Qed.

(** Chunking never touches the file system and records nothing. *)
Lemma _get_tokenized_chunks_pure text tokenizer max_length fs :
  ∃ r, _get_tokenized_chunks env text tokenizer max_length fs = (fs, [], r).
Proof.
  unfold _get_tokenized_chunks. destruct (tokenize env tokenizer text) as [ids mask].
  destruct (max_length =? 0)%Z; [by eexists|].
  destruct (max_length <? 0)%Z; by eexists.
Qed.

Lemma translate_chunks_pure tokenizer model chunks fs :
  ∃ r, translate_chunks env tokenizer model chunks fs = (fs, [], r).
Proof.
  induction chunks as [|c rest [r IH]]; simpl; [by eexists|].
  rewrite bind_run. destruct (generate env model c) as [out|]; simpl; [|by eexists].
  rewrite bind_run, IH. destruct r; by eexists.
Qed.

(** When every chunk is generated, the decoded chunks come back in order. *)
Lemma translate_chunks_ok tokenizer model chunks outs fs :
  mapM (generate env model) chunks = Some outs →
  translate_chunks env tokenizer model chunks fs =
    (fs, [], Ok (map (decode env tokenizer) outs)).
Proof.
  revert outs. induction chunks as [|c rest IH]; intros outs Hm; simpl in *.
  - by inversion Hm.
  - destruct (generate env model c) as [out|]; simpl in Hm; [|done].
    destruct (mapM (generate env model) rest) as [outs'|]; simpl in Hm; [|done].
    inversion Hm; subst. rewrite bind_run. simpl.
    rewrite bind_run, (IH outs') by done. reflexivity.
Qed.

(** Translating one text records the call and nothing else. *)
Lemma _translate_text_pure text tokenizer model fs :
  ∃ r, _translate_text env text tokenizer model fs = (fs, [TranslateText text], r).
Proof.
  unfold _translate_text. rewrite bind_run. simpl. rewrite bind_run.
  destruct (_get_tokenized_chunks_pure text tokenizer
              (config_max_length env model `div` 2)%Z fs) as [r ->].
  destruct r as [chunks|e]; [|by eexists].
  rewrite bind_run.
  destruct (translate_chunks_pure tokenizer model chunks fs) as [r' ->].
  destruct r'; by eexists.
Qed.

End Engine.

(** ** One hop and the hop loop *)

Lemma model_loads_app t1 t2 : model_loads (t1 ++ t2) = model_loads t1 ++ model_loads t2.
Proof. apply omap_app. Qed.

Lemma file_writes_app t1 t2 : file_writes (t1 ++ t2) = file_writes t1 ++ file_writes t2.
Proof. apply omap_app. Qed.

Lemma model_loads_translate xs : model_loads (map TranslateText xs) = [].
Proof. by induction xs. Qed.

Lemma file_writes_translate xs : file_writes (map TranslateText xs) = [].
Proof. by induction xs. Qed.

Lemma split_head_app x y : split_head (split_head x +:+ "_" +:+ y) = split_head x.
Proof.
  induction x as [|c r IH]; simpl; [done|].
  destruct (Ascii.eqb c "_") eqn:E; simpl; [done|]. by rewrite E, IH.
Qed.

Lemma split_head_hop_id chain i x : split_head (hop_id chain i x) = split_head x.
Proof. apply split_head_app. Qed.

Section Hops.
Context (env : Environment).
Implicit Types fs : gmap string (list (Dict env)).
Implicit Types chain : list string.

Lemma _load_translation_model_run src_lang dest_lang device fs :
  ∃ r, _load_translation_model env src_lang dest_lang device fs =
         (fs, [LoadModel src_lang dest_lang], r).
Proof.
  unfold _load_translation_model. rewrite bind_run. simpl. rewrite bind_run.
  destruct (tokenizer_from_pretrained env _) as [tok|]; simpl; [|by eexists].
  rewrite bind_run. destruct (model_from_pretrained env _ _); simpl; by eexists.
Qed.

(** The element loop: on success every text went through the engine, in
    order, and every id was rewritten; it never writes a file. *)
Lemma translate_elements_run chain i tokenizer model ds fs :
  ∃ t r, translate_elements env chain i tokenizer model ds fs = (fs, t, r) ∧
    model_loads t = [] ∧ file_writes t = [] ∧
    ∀ ds', r = Ok ds' →
      t = map TranslateText (map text ds) ∧
      map id ds' = map (fun e => hop_id chain i (id e)) ds.
Proof.
  induction ds as [|e rest (t & r & IH & Hl & Hw & Hok)]; simpl.
  - do 2 eexists. split_and!; [reflexivity|done|done|]. by intros ds' [= <-].
  - rewrite bind_run.
    destruct (_translate_text_pure env (text e) tokenizer model fs) as [[new_text|err] ->].
    + rewrite bind_run, IH. destruct r as [others|err]; simpl; rewrite ?app_nil_r.
      * do 2 eexists. split_and!; [reflexivity|done|done|].
        intros ds' [= <-]. destruct (Hok others eq_refl) as [-> Hid]. simpl.
        split; congruence.
      * do 2 eexists. split_and!; [reflexivity|done|done|done].
    + do 2 eexists. split_and!; [reflexivity|done|done|done].
Qed.

Lemma hop_langs_prefix_path chain i s d :
  hop_langs chain i = Some (s, d) →
  ∃ first, chain !! 0 = Some first ∧ chain !! i = Some s ∧ chain !! (i + 1) = Some d ∧
    prefix_path env chain (i + 1) = translation_path env first d (slice 1 (i + 1) chain).
Proof.
  unfold hop_langs. destruct (chain !! i) as [s'|] eqn:Hs; [|done].
  destruct (chain !! (i + 1)) as [d'|] eqn:Hd; [|done]. intros [= -> ->].
  destruct chain as [|first rest]; [done|]. exists first.
  repeat split; try done. unfold prefix_path. by rewrite Hd.
Qed.

(** One hop either completes — model loaded, every element translated,
    then the cache file written — or raises and leaves the files alone. *)
Lemma translate_hop_run chain device i ds fs :
  ∃ fs' t r, translate_hop env chain device i ds fs = (fs', t, r) ∧
    match r with
    | Ok ds' =>
        ∃ s d, hop_langs chain i = Some (s, d) ∧
          fs' = <[prefix_path env chain (i + 1) := dataset_to_dict env ds']> fs ∧
          t = LoadModel s d :: map TranslateText (map text ds)
                ++ [WriteFile (prefix_path env chain (i + 1))] ∧
          map id ds' = map (fun e => hop_id chain i (id e)) ds
    | Raise e =>
        fs' = fs ∧ file_writes t = [] ∧
        model_loads t `prefix_of` option_list (hop_langs chain i)
    end.
Proof.
  unfold translate_hop. rewrite bind_run, index_run.
  destruct (chain !! i) as [s|] eqn:Hs; simpl;
    [|do 3 eexists; split; [reflexivity|]; repeat split; try done; apply prefix_nil].
  rewrite bind_run, index_run.
  destruct (chain !! (i + 1)) as [d|] eqn:Hd; simpl;
    [|do 3 eexists; split; [reflexivity|]; repeat split; try done; apply prefix_nil].
  assert (hop_langs chain i = Some (s, d)) as Hh by (unfold hop_langs; by rewrite Hs, Hd).
  destruct (hop_langs_prefix_path chain i s d Hh) as (first & H0 & _ & _ & Hp).
  rewrite Hh. simpl. rewrite bind_run.
  destruct (_load_translation_model_run s d device fs) as [[[model tokenizer]|err] ->];
    [|do 3 eexists; split; [reflexivity|]; repeat split; done].
  rewrite bind_run.
  destruct (translate_elements_run chain i tokenizer model ds fs)
    as (t & r & -> & Hl & Hw & Hok).
  destruct r as [ds'|err].
  - rewrite bind_run, index_run, H0. simpl.
    do 3 eexists. split; [reflexivity|]. exists s, d.
    destruct (Hok ds' eq_refl) as [-> Hid]. rewrite Hp. by split_and!.
  - do 3 eexists. split; [reflexivity|]. simpl. split_and!; [done|done|].
    unfold model_loads in *. simpl. by rewrite Hl.
Qed.

Lemma hop_trace_loads s d xs p :
  model_loads (LoadModel s d :: map TranslateText xs ++ [WriteFile p]) = [(s, d)].
Proof.
  unfold model_loads. simpl. rewrite omap_app. fold (model_loads (map TranslateText xs)).
  by rewrite model_loads_translate.
Qed.

Lemma hop_trace_writes s d xs p :
  file_writes (LoadModel s d :: map TranslateText xs ++ [WriteFile p]) = [p].
Proof.
  unfold file_writes. simpl. rewrite omap_app. fold (file_writes (map TranslateText xs)).
  by rewrite file_writes_translate.
Qed.

(** Whatever the outcome, models are loaded for the hops of the loop, in
    order, and for nothing else. *)
Lemma translate_hops_loads chain device idxs ds fs fs' t r :
  translate_hops env chain device idxs ds fs = (fs', t, r) →
  model_loads t `prefix_of` omap (hop_langs chain) idxs.
Proof.
  revert ds fs fs' t r. induction idxs as [|i rest IH]; intros ds fs fs' t r; simpl.
  - intros [= <- <- <-]. apply prefix_nil.
  - rewrite bind_run.
    destruct (translate_hop_run chain device i ds fs) as (fs1 & t1 & r1 & -> & Hhop).
    destruct r1 as [ds1|e].
    + destruct Hhop as (s & d & Hh & -> & -> & _). rewrite Hh.
      destruct (translate_hops env chain device rest ds1 _) as [[fs2 t2] r2] eqn:Hrest.
      intros [= <- <- <-]. apply IH in Hrest.
      rewrite app_comm_cons, model_loads_app, hop_trace_loads. simpl. by apply prefix_cons.
    + destruct Hhop as (_ & _ & Hpre). intros [= <- <- <-].
      destruct (hop_langs chain i) as [p|]; simpl in *.
      * etrans; [exact Hpre|]. by apply (prefix_app_r [p] [p]).
      * apply prefix_nil_inv in Hpre. rewrite Hpre. apply prefix_nil.
Qed.

(** A completed loop loaded one model per hop and wrote one file per hop;
    nothing that was on disk disappeared, and every hop's file is there. *)
Lemma translate_hops_ok chain device idxs ds fs fs' t ds' :
  translate_hops env chain device idxs ds fs = (fs', t, Ok ds') →
  model_loads t = omap (hop_langs chain) idxs ∧
  length (model_loads t) = length idxs ∧
  file_writes t = map (fun i => prefix_path env chain (i + 1)) idxs ∧
  (∀ p, is_Some (fs !! p) → is_Some (fs' !! p)) ∧
  (∀ i, i ∈ idxs →
        is_Some (hop_langs chain i) ∧ is_Some (fs' !! prefix_path env chain (i + 1))).
Proof.
  revert ds fs fs' t. induction idxs as [|i rest IH]; intros ds fs fs' t; simpl.
  - intros [= <- <- <-]. split_and!; try done. intros i Hi. by apply elem_of_nil in Hi.
  - rewrite bind_run.
    destruct (translate_hop_run chain device i ds fs) as (fs1 & t1 & r1 & -> & Hhop).
    destruct r1 as [ds1|e]; [|done].
    destruct Hhop as (s & d & Hh & -> & -> & _). rewrite Hh.
    destruct (translate_hops env chain device rest ds1 _) as [[fs2 t2] r2] eqn:Hrest.
    intros [= <- <- ->]. apply IH in Hrest as (Hl & Hlen & Hw & Hkeep & Hin).
    assert (∀ p, is_Some (fs !! p) → is_Some (fs2 !! p)) as Hkeep'.
    { intros p Hp. apply Hkeep. rewrite lookup_insert. case_decide; eauto. }
    rewrite app_comm_cons, model_loads_app, file_writes_app, hop_trace_loads, hop_trace_writes.
    simpl. rewrite Hl, Hw.
    split_and!; try done.
    + f_equal. rewrite <- Hl. exact Hlen.
    + intros j Hj. apply elem_of_cons in Hj as [->|Hj]; [|by apply Hin].
      split; [by rewrite Hh|]. apply Hkeep. rewrite lookup_insert_eq. eauto.
Qed.

(** A completed loop keeps the number of elements and the heads of the ids. *)
Lemma translate_hop_heads chain i (ds ds' : list DatasetElement) :
  map id ds' = map (fun e => hop_id chain i (id e)) ds →
  length ds' = length ds ∧
  map (fun e => split_head (id e)) ds' = map (fun e => split_head (id e)) ds.
Proof.
  intros Hid. split.
  - by rewrite <- (length_map id ds'), Hid, length_map.
  - transitivity (map split_head (map id ds')); [by rewrite map_map|].
    rewrite Hid, map_map. apply map_ext. intros e. apply split_head_hop_id.
Qed.

Lemma hop_id_heads chain j (ds1 ds : list DatasetElement) :
  map (fun e => split_head (id e)) ds1 = map (fun e => split_head (id e)) ds →
  map (fun e => hop_id chain j (id e)) ds1 = map (fun e => hop_id chain j (id e)) ds.
Proof.
  revert ds. induction ds1 as [|e1 ds1 IH]; intros [|e ds] H; simpl in *; try done.
  injection H as Hhead Htail. f_equal; [|by apply IH].
  unfold hop_id. by rewrite Hhead.
Qed.

(** The last hop of a completed loop wrote the returned dataset, with the
    ids that hop computes from the ids the loop started with. *)
Lemma translate_hops_last chain device done j ds fs fs' t ds' :
  translate_hops env chain device (done ++ [j]) ds fs = (fs', t, Ok ds') →
  fs' !! prefix_path env chain (j + 1) = Some (dataset_to_dict env ds') ∧
  map id ds' = map (fun e => hop_id chain j (id e)) ds.
Proof.
  revert ds fs fs' t. induction done as [|i rest IH]; intros ds fs fs' t; simpl.
  - rewrite bind_run.
    destruct (translate_hop_run chain device j ds fs) as (fs1 & t1 & r1 & -> & Hhop).
    destruct r1 as [ds1|e]; [|done]. destruct Hhop as (s & d & Hh & -> & -> & Hid).
    intros [= <- <- <-]. by rewrite lookup_insert_eq.
  - rewrite bind_run.
    destruct (translate_hop_run chain device i ds fs) as (fs1 & t1 & r1 & -> & Hhop).
    destruct r1 as [ds1|e]; [|done]. destruct Hhop as (s & d & Hh & -> & -> & Hid).
    destruct (translate_hops env chain device (rest ++ [j]) ds1 _) as [[fs2 t2] r2] eqn:Hrest.
    intros [= <- <- ->]. apply IH in Hrest as (Hfile & Hids).
    split; [done|]. rewrite Hids. apply hop_id_heads.
    by apply (translate_hop_heads chain i).
Qed.

(** Every outcome of the loop splits into the hops that completed, each
    with the trace of a whole hop, and the unfinished rest, which wrote
    nothing. *)
Lemma translate_hops_decompose chain device idxs ds fs fs' t r :
  translate_hops env chain device idxs ds fs = (fs', t, r) →
  ∃ done blocks dsi t2,
    translate_hops env chain device done ds fs = (fs', concat blocks, Ok dsi) ∧
    Forall (hop_block (length ds)) blocks ∧ length blocks = length done ∧
    length dsi = length ds ∧
    t = concat blocks ++ t2 ∧ file_writes t2 = [] ∧
    match r with
    | Ok ds' => done = idxs ∧ t2 = [] ∧ ds' = dsi
    | Raise e =>
        ∃ i rest, idxs = done ++ i :: rest ∧
          translate_hop env chain device i dsi fs' = (fs', t2, Raise e)
    end.
Proof.
  revert ds fs fs' t r. induction idxs as [|i rest IH]; intros ds fs fs' t r; simpl.
  - intros [= <- <- <-]. exists [], [], ds, []. by split_and!.
  - rewrite bind_run.
    destruct (translate_hop_run chain device i ds fs) as (fs1 & t1 & r1 & Hrun & Hhop).
    rewrite Hrun. destruct r1 as [ds1|e].
    + destruct Hhop as (s & d & Hh & Hfs & Ht & Hid).
      destruct (translate_hop_heads chain i ds ds1 Hid) as [Hlen _].
      destruct (translate_hops env chain device rest ds1 fs1) as [[fs2 t2] r2] eqn:Hrest.
      intros [= <- <- <-].
      apply IH in Hrest as (done & blocks & dsi & u & Hdone & Hblocks & Hn & Hleni & -> & Hu & Hr).
      exists (i :: done), (t1 :: blocks), dsi, u. split_and!.
      * simpl. by rewrite bind_run, Hrun, Hdone.
      * constructor; [|by rewrite <- Hlen]. rewrite Ht. constructor. by rewrite length_map.
      * simpl. by rewrite Hn.
      * congruence.
      * simpl. by rewrite app_assoc.
      * done.
      * destruct r2 as [ds'|e]; [destruct Hr as (-> & -> & ->); done|].
        destruct Hr as (i' & rest' & -> & Hfail). by exists i', rest'.
    + destruct Hhop as (-> & Hw & _). intros [= <- <- <-].
      exists [], [], ds, t1. split_and!; try done. by exists i, rest.
Qed.

End Hops.

(** ** The orchestrator *)

Section Orchestrator.
Context (env : Environment).
Implicit Types fs : gmap string (list (Dict env)).

Lemma chain_last_index (src dest : string) (trans : list string) :
  length ([src] ++ trans ++ [dest]) - 1 = S (length trans).
Proof. simpl. rewrite length_app. simpl. lia. Qed.

Lemma prefix_path_full src dest trans :
  prefix_path env ([src] ++ trans ++ [dest]) (S (length trans)) =
  translation_path env src dest trans.
Proof.
  unfold prefix_path, slice. simpl.
  rewrite lookup_app_r, Nat.sub_diag, Nat.sub_0_r by done.
  change (drop 0 (trans ++ [dest])) with (trans ++ [dest]).
  by rewrite take_app_length.
Qed.

Lemma prefix_path_base src dest trans :
  prefix_path env ([src] ++ trans ++ [dest]) 0 = translation_path env src src [].
Proof. done. Qed.

Lemma not_degenerate_test src dest trans :
  ¬ degenerate src dest trans → String.eqb src dest && (length trans =? 0) = false.
Proof.
  intros H. destruct (String.eqb_spec src dest) as [->|]; [|done].
  destruct trans; [|done]. by destruct H.
Qed.

(** A present full-chain file is returned as it is. *)
Lemma get_translated_dataset_hit src dest trans fs content :
  fs !! translation_path env src dest trans = Some content →
  get_translated_dataset env src dest trans fs = (fs, [], Ok (dataset_from_dict env content)).
Proof.
  intros Hfile. unfold get_translated_dataset.
  destruct (String.eqb_spec src dest) as [->|]; simpl.
  - destruct trans as [|x trans]; simpl.
    + by rewrite bind_run, load_dataset_full_run, Hfile.
    + rewrite bind_run. simpl. unfold catch_file_not_found.
      by rewrite bind_run, load_dataset_full_run, Hfile.
  - rewrite bind_run. simpl. unfold catch_file_not_found.
    by rewrite bind_run, load_dataset_full_run, Hfile.
Qed.

(** Without a full-chain file a non-degenerate request is the run of
    [_translate_dataset]. *)
Lemma get_translated_dataset_miss src dest trans fs :
  ¬ degenerate src dest trans →
  fs !! translation_path env src dest trans = None →
  get_translated_dataset env src dest trans fs = _translate_dataset env src dest trans "cuda" fs.
Proof.
  intros Hnd Hfile. unfold get_translated_dataset.
  rewrite (not_degenerate_test _ _ _ Hnd), bind_run. simpl.
  unfold catch_file_not_found. rewrite bind_run, load_dataset_full_run, Hfile.
  by destruct (_translate_dataset env src dest trans "cuda" fs) as [[??]?].
Qed.

(** Past the base load and the validation, [_translate_dataset] is the hop
    loop started at the point the backward scan found. *)
Lemma _translate_dataset_resume src dest trans device fs base :
  ¬ degenerate src dest trans →
  ¬ adjacent_duplicate ([src] ++ trans ++ [dest]) →
  fs !! translation_path env src src [] = Some base →
  ∀ k resume,
    find_cached_prefix env ([src] ++ trans ++ [dest]) (S (length trans))
      (dataset_from_dict env base) fs = (fs, [], Ok (k, resume)) →
    _translate_dataset env src dest trans device fs =
      translate_hops env ([src] ++ trans ++ [dest]) device
        (seq k (S (length trans) - k)) resume fs.
Proof.
  intros Hnd Hvalid Hbase k resume Hscan. unfold _translate_dataset.
  rewrite (bind_pure_ok _ _ fs base) by (by rewrite load_dataset_full_run, Hbase).
  apply not_degenerate_test in Hnd. rewrite andb_comm in Hnd. rewrite Hnd.
  destruct (check_transitions_run env
              (zip (removelast ([src] ++ trans ++ [dest])) (tail ([src] ++ trans ++ [dest]))) fs)
    as (r & Hcheck & Hr & _).
  assert (r = Ok tt) as -> by (by apply Hr, valid_iff_no_adjacent_duplicate).
  rewrite (bind_pure_ok _ _ fs tt Hcheck), chain_last_index.
  by rewrite (bind_pure_ok _ _ fs (k, resume) Hscan).
Qed.

(** A missing base dataset stops [_translate_dataset] at its first line. *)
Lemma _translate_dataset_no_base src dest trans device fs :
  fs !! translation_path env src src [] = None →
  _translate_dataset env src dest trans device fs =
    (fs, [], Raise (FileNotFoundError (translation_path env src src []))).
Proof.
  intros Hbase. unfold _translate_dataset.
  apply bind_pure_raise. by rewrite load_dataset_full_run, Hbase.
Qed.

(** An invalid chain stops it at the validation loop. *)
Lemma _translate_dataset_invalid src dest trans device fs :
  ¬ degenerate src dest trans →
  adjacent_duplicate (translation_langs src trans dest) →
  is_Some (fs !! translation_path env src src []) →
  ∃ msg, _translate_dataset env src dest trans device fs = (fs, [], Raise (ValueError msg)).
Proof.
  intros Hnd Hdup [base Hbase]. unfold _translate_dataset.
  rewrite (bind_pure_ok _ _ fs base) by (by rewrite load_dataset_full_run, Hbase).
  apply not_degenerate_test in Hnd. rewrite andb_comm in Hnd. rewrite Hnd.
  destruct (check_transitions_run env
              (zip (removelast ([src] ++ trans ++ [dest])) (tail ([src] ++ trans ++ [dest]))) fs)
    as (r & Hcheck & Hr & Hraise).
  destruct Hraise as [msg ->].
  { intros ->. apply (valid_iff_no_adjacent_duplicate ([src] ++ trans ++ [dest])); [|done].
    by apply Hr. }
  exists msg. by apply bind_pure_raise.
Qed.

(** A completed non-degenerate run had a base dataset and a valid chain. *)
Lemma _translate_dataset_ok_inv src dest trans device fs fs' t d :
  ¬ degenerate src dest trans →
  _translate_dataset env src dest trans device fs = (fs', t, Ok d) →
  (∃ base, fs !! translation_path env src src [] = Some base) ∧
  ¬ adjacent_duplicate (translation_langs src trans dest).
Proof.
  intros Hnd Hrun. split.
  - destruct (fs !! translation_path env src src []) as [base|] eqn:Hbase; [by eexists|].
    by rewrite _translate_dataset_no_base in Hrun.
  - intros Hdup.
    destruct (fs !! translation_path env src src []) as [base|] eqn:Hbase.
    + destruct (_translate_dataset_invalid src dest trans device fs Hnd Hdup) as [msg Hmsg];
        [by rewrite Hbase|]. by rewrite Hmsg in Hrun.
    + by rewrite _translate_dataset_no_base in Hrun.
Qed.

(** A completed run that found no full-chain file ran the hop loop from
    the resume point up to the last hop, which wrote the full-chain file. *)
Lemma _translate_dataset_ok_hops src dest trans device fs fs' t d :
  ¬ degenerate src dest trans →
  fs !! translation_path env src dest trans = None →
  _translate_dataset env src dest trans device fs = (fs', t, Ok d) →
  ∃ base k resume,
    fs !! translation_path env src src [] = Some base ∧
    find_cached_prefix env (translation_langs src trans dest) (S (length trans))
      (dataset_from_dict env base) fs = (fs, [], Ok (k, resume)) ∧
    k ≤ length trans ∧
    translate_hops env (translation_langs src trans dest) device
      (seq k (length trans - k) ++ [length trans]) resume fs = (fs', t, Ok d).
Proof.
  intros Hnd Hfull Hrun.
  destruct (_translate_dataset_ok_inv _ _ _ _ _ _ _ _ Hnd Hrun) as [[base Hbase] Hvalid].
  destruct (find_cached_prefix_run env (translation_langs src trans dest) (S (length trans))
              (dataset_from_dict env base) fs) as (k & resume & Hscan & Hk & _ & _ & Hpos).
  { unfold translation_langs. simpl. rewrite length_app. simpl. lia. }
  exists base, k, resume. split_and!; try done.
  - destruct (decide (k = S (length trans))) as [->|]; [|lia].
    destruct Hpos as (c & Hc & _); [lia|].
    unfold translation_langs in Hc. by rewrite prefix_path_full, Hfull in Hc.
  - assert (k ≤ length trans) as Hle.
    { destruct (decide (k = S (length trans))) as [->|]; [|lia].
      destruct Hpos as (c & Hc & _); [lia|].
      unfold translation_langs in Hc. by rewrite prefix_path_full, Hfull in Hc. }
    rewrite (_translate_dataset_resume src dest trans device fs base Hnd Hvalid Hbase
               k resume Hscan) in Hrun.
    replace (S (length trans) - k) with (S (length trans - k)) in Hrun by lia.
    rewrite seq_S in Hrun. by replace (k + (length trans - k)) with (length trans) in Hrun by lia.
Qed.

End Orchestrator.

(** ** Ids and list positions *)

Lemma split_head_free s : underscore_free s = true → split_head s = s.
Proof.
  induction s as [|c r IH]; simpl; [done|].
  destruct (Ascii.eqb c "_"); simpl; [done|]. intros H. by rewrite IH.
Qed.

Lemma split_head_free_app s y :
  underscore_free s = true → split_head (s +:+ "_" +:+ y) = s.
Proof.
  intros H. rewrite <- (split_head_free s H) at 1.
  by rewrite split_head_app, split_head_free.
Qed.

Lemma map_lookup {A B} (f : A → B) (l : list A) i : map f l !! i = f <$> l !! i.
Proof. revert i. induction l as [|x l IH]; intros [|i]; simpl; auto. Qed.



(** ** The first hop of the loop, and the engine calls of a completed loop *)

Lemma translated_texts_app t1 t2 :
  translated_texts (t1 ++ t2) = translated_texts t1 ++ translated_texts t2.
Proof. apply omap_app. Qed.

Lemma translated_texts_map xs : translated_texts (map TranslateText xs) = xs.
Proof.
  induction xs as [|x xs IH]; [done|].
  change (translated_texts (map TranslateText (x :: xs)))
    with (x :: translated_texts (map TranslateText xs)).
  by rewrite IH.
Qed.

Lemma hop_blocks_texts n blocks :
  Forall (hop_block n) blocks →
  length (translated_texts (concat blocks)) = length blocks * n.
Proof.
  induction 1 as [|block blocks Hblock _ IH]; [done|].
  simpl. rewrite translated_texts_app, length_app, IH. f_equal.
  destruct Hblock as [s d xs p Hxs].
  change (LoadModel s d :: map TranslateText xs ++ [WriteFile p])
    with ([LoadModel s d] ++ map TranslateText xs ++ [WriteFile p]).
  rewrite !translated_texts_app, translated_texts_map. simpl.
  by rewrite length_app, Nat.add_0_r.
Qed.

Section HopStart.
Context (env : Environment).
Implicit Types fs : gmap string (list (Dict env)).
Implicit Types chain : list string.

(** A hop whose two languages exist starts by loading its model, whatever
    happens next. *)
Lemma translate_hop_first_event chain device i ds fs fs' t r s d :
  hop_langs chain i = Some (s, d) →
  translate_hop env chain device i ds fs = (fs', t, r) →
  ∃ t', t = LoadModel s d :: t'.
Proof.
  unfold hop_langs. destruct (chain !! i) as [s'|] eqn:Hs; [|done].
  destruct (chain !! (i + 1)) as [d'|] eqn:Hd; [|done]. intros [= -> ->].
  unfold translate_hop. rewrite bind_run, index_run, Hs. simpl.
  rewrite bind_run, index_run, Hd. simpl. rewrite bind_run.
  destruct (_load_translation_model_run env s d device fs) as [[[model tokenizer]|err] ->].
  - match goal with |- context [(?m ≫= ?f) fs] => destruct ((m ≫= f) fs) as [[fs2 t2] r2] end.
    intros [= _ <- _]. by eexists.
  - intros [= _ <- _]. by eexists.
Qed.

Lemma translate_hops_first_event chain device i rest ds fs fs' t r s d :
  hop_langs chain i = Some (s, d) →
  translate_hops env chain device (i :: rest) ds fs = (fs', t, r) →
  ∃ t', t = LoadModel s d :: t'.
Proof.
  intros Hh. simpl. rewrite bind_run.
  destruct (translate_hop env chain device i ds fs) as [[fs1 t1] r1] eqn:Hhop.
  destruct (translate_hop_first_event _ _ _ _ _ _ _ _ _ _ Hh Hhop) as [t1' ->].
  destruct r1 as [ds1|err].
  - destruct (translate_hops env chain device rest ds1 fs1) as [[fs2 t2] r2].
    intros [= _ <- _]. by eexists.
  - intros [= _ <- _]. by eexists.
Qed.

(** A completed loop starts with the whole first hop: its model, the texts
    of the dataset it was given, its file. *)
Lemma translate_hops_first_block chain device i rest ds fs fs' t ds' :
  translate_hops env chain device (i :: rest) ds fs = (fs', t, Ok ds') →
  ∃ s d t',
    hop_langs chain i = Some (s, d) ∧
    t = LoadModel s d :: map TranslateText (map text ds)
          ++ WriteFile (prefix_path env chain (i + 1)) :: t'.
Proof.
  simpl. rewrite bind_run.
  destruct (translate_hop_run env chain device i ds fs) as (fs1 & t1 & r1 & -> & Hspec).
  destruct r1 as [ds1|err]; [|done]. destruct Hspec as (s & d & Hh & _ & -> & _).
  destruct (translate_hops env chain device rest ds1 fs1) as [[fs2 t2] r2].
  intros [= _ <- _]. exists s, d, t2. split; [done|].
  simpl. by rewrite <- app_assoc.
Qed.

(** A completed loop handed every element to the engine once per hop. *)
Lemma translate_hops_texts_count chain device idxs ds fs fs' t ds' :
  translate_hops env chain device idxs ds fs = (fs', t, Ok ds') →
  length (translated_texts t) = length idxs * length ds.
Proof.
  intros Hrun.
  destruct (translate_hops_decompose env _ _ _ _ _ _ _ _ Hrun)
    as (done & blocks & dsi & t2 & _ & Hblocks & Hn & _ & -> & _ & -> & -> & _).
  by rewrite app_nil_r, (hop_blocks_texts _ _ Hblocks), Hn.
Qed.

End HopStart.

(** ** The properties of the pipeline *)

Section Claims.
Context (env : Environment).
Implicit Types fs : gmap string (list (Dict env)).

(** C1. When the full-chain cache file is absent (and the request reaches
    the cache lookup: base dataset present, chain valid, not degenerate),
    the backward scan returns the largest index [k] whose chain prefix has
    a cache file, together with that file's dataset; it returns index 0 and
    the untranslated base dataset when no prefix is cached.  The call is
    then exactly the hop loop over the hops [k .. len-2].  Whatever its
    outcome, the call begins by loading the model of hop [k] and loads
    models for hops from [k] on only, in order.  When it completes, it has
    loaded the model of every hop [k .. len-2] and of no other, it began
    with the whole hop [k] on the resume dataset (model, the texts of that
    dataset, the file of prefix [k+1]), it handed every element to the
    engine once per hop from [k] on, and it wrote the files of the
    prefixes [k+1 .. len-1] and no other. *)
Theorem resume_from_longest_cached_prefix src_lang dest_lang transition_langs fs base :
  ¬ degenerate src_lang dest_lang transition_langs →
  ¬ adjacent_duplicate (translation_langs src_lang transition_langs dest_lang) →
  fs !! translation_path env src_lang src_lang [] = Some base →
  fs !! translation_path env src_lang dest_lang transition_langs = None →
  ∃ k resume,
    find_cached_prefix env (translation_langs src_lang transition_langs dest_lang)
      (length (translation_langs src_lang transition_langs dest_lang) - 1)
      (dataset_from_dict env base) fs = (fs, [], Ok (k, resume)) ∧
    k < length (translation_langs src_lang transition_langs dest_lang) - 1 ∧
    (∀ i, k < i < length (translation_langs src_lang transition_langs dest_lang) →
          fs !! prefix_path env (translation_langs src_lang transition_langs dest_lang) i = None) ∧
    (k = 0 → resume = dataset_from_dict env base) ∧
    (0 < k → ∃ cached,
        fs !! prefix_path env (translation_langs src_lang transition_langs dest_lang) k
          = Some cached ∧
        resume = dataset_from_dict env cached) ∧
    get_translated_dataset env src_lang dest_lang transition_langs fs =
      translate_hops env (translation_langs src_lang transition_langs dest_lang) "cuda"
        (seq k (length (translation_langs src_lang transition_langs dest_lang) - 1 - k))
        resume fs ∧
    (∀ fs' t r,
      get_translated_dataset env src_lang dest_lang transition_langs fs = (fs', t, r) →
      model_loads t `prefix_of`
        omap (hop_langs (translation_langs src_lang transition_langs dest_lang))
             (seq k (length (translation_langs src_lang transition_langs dest_lang) - 1 - k)) ∧
      ∃ s d t',
        hop_langs (translation_langs src_lang transition_langs dest_lang) k = Some (s, d) ∧
        t = LoadModel s d :: t') ∧
    (∀ fs' t dataset,
      get_translated_dataset env src_lang dest_lang transition_langs fs = (fs', t, Ok dataset) →
      model_loads t =
        omap (hop_langs (translation_langs src_lang transition_langs dest_lang))
             (seq k (length (translation_langs src_lang transition_langs dest_lang) - 1 - k)) ∧
      length (model_loads t) =
        length (translation_langs src_lang transition_langs dest_lang) - 1 - k ∧
      (∃ s d t',
        hop_langs (translation_langs src_lang transition_langs dest_lang) k = Some (s, d) ∧
        t = LoadModel s d :: map TranslateText (map text resume)
              ++ WriteFile (prefix_path env
                              (translation_langs src_lang transition_langs dest_lang) (k + 1))
              :: t') ∧
      length (translated_texts t) =
        (length (translation_langs src_lang transition_langs dest_lang) - 1 - k)
        * length resume ∧
      file_writes t =
        map (fun i => prefix_path env
                        (translation_langs src_lang transition_langs dest_lang) (i + 1))
            (seq k (length (translation_langs src_lang transition_langs dest_lang) - 1 - k))).
Proof.
  intros Hnd Hvalid Hbase Hfull. unfold translation_langs in *.
  rewrite chain_last_index.
  destruct (find_cached_prefix_run env ([src_lang] ++ transition_langs ++ [dest_lang])
              (S (length transition_langs)) (dataset_from_dict env base) fs)
    as (k & resume & Hscan & Hk & Habs & Hzero & Hpos).
  { simpl. rewrite length_app. simpl. lia. }
  assert (k < S (length transition_langs)) as Hlt.
  { destruct (decide (k = S (length transition_langs))) as [->|]; [|lia].
    destruct Hpos as (c & Hc & _); [lia|]. by rewrite prefix_path_full, Hfull in Hc. }
  assert (get_translated_dataset env src_lang dest_lang transition_langs fs =
          translate_hops env ([src_lang] ++ transition_langs ++ [dest_lang]) "cuda"
            (seq k (S (length transition_langs) - k)) resume fs) as Hcall.
  { rewrite get_translated_dataset_miss by done.
    by apply (_translate_dataset_resume env _ _ _ _ _ base). }
  assert (seq k (S (length transition_langs) - k)
          = k :: seq (S k) (length transition_langs - k)) as Hseq.
  { replace (S (length transition_langs) - k) with (S (length transition_langs - k)) by lia.
    reflexivity. }
  assert (is_Some (hop_langs ([src_lang] ++ transition_langs ++ [dest_lang]) k))
    as [[s d] Hhop].
  { unfold hop_langs.
    destruct (lookup_lt_is_Some_2 ([src_lang] ++ transition_langs ++ [dest_lang]) k)
      as [s ->]; [simpl; rewrite length_app; simpl; lia|].
    destruct (lookup_lt_is_Some_2 ([src_lang] ++ transition_langs ++ [dest_lang]) (k + 1))
      as [d ->]; [simpl; rewrite length_app; simpl; lia|].
    by eexists. }
  exists k, resume. split_and!; try done.
  - intros i Hi. apply Habs. split; [lia|].
    destruct Hi as [_ Hi]. simpl in Hi. rewrite length_app in Hi. simpl in Hi. lia.
  - intros fs' t r Hrun. rewrite Hcall in Hrun. split.
    + by eapply translate_hops_loads.
    + rewrite Hseq in Hrun.
      destruct (translate_hops_first_event env _ _ _ _ _ _ _ _ _ _ _ Hhop Hrun) as [t' ->].
      by exists s, d, t'.
  - intros fs' t dataset Hrun. rewrite Hcall in Hrun.
    pose proof (translate_hops_texts_count env _ _ _ _ _ _ _ _ Hrun) as Htexts.
    rewrite length_seq in Htexts.
    pose proof (translate_hops_ok env _ _ _ _ _ _ _ _ Hrun) as (Hloads & Hlen & Hwrites & _).
    rewrite length_seq in Hlen.
    split_and!; try done.
    rewrite Hseq in Hrun.
    destruct (translate_hops_first_block env _ _ _ _ _ _ _ _ _ Hrun)
      as (s' & d' & t' & Hhop' & ->).
    by exists s', d', t'.
Qed.

(** C2. In the hop loop a cache file is written only by a hop whose every
    element went through the engine: the trace of each completed hop is a
    model load, one translation per element, then the write.  When a hop
    raises, that hop wrote nothing and left the files as the completed
    hops had put them; the files of the completed hops are all present and
    load without error, and the file of the last completed hop holds the
    dataset the failing hop started from. *)
Theorem failed_hop_persists_nothing chain device idxs ds fs fs' t e :
  translate_hops env chain device idxs ds fs = (fs', t, Raise e) →
  ∃ done i rest blocks dsi t2,
    idxs = done ++ i :: rest ∧
    translate_hops env chain device done ds fs = (fs', concat blocks, Ok dsi) ∧
    Forall (hop_block (length ds)) blocks ∧ length blocks = length done ∧
    translate_hop env chain device i dsi fs' = (fs', t2, Raise e) ∧
    t = concat blocks ++ t2 ∧
    file_writes t2 = [] ∧
    file_writes t = map (fun j => prefix_path env chain (j + 1)) done ∧
    (∀ p, is_Some (fs !! p) → is_Some (fs' !! p)) ∧
    (∀ j, j ∈ done →
      ∃ first dest_lang cached,
        chain !! 0 = Some first ∧ chain !! (j + 1) = Some dest_lang ∧
        load_dataset_full env dest_lang [first :: slice 1 (j + 1) chain] fs' =
          (fs', [], Ok cached)) ∧
    ∀ before last, done = before ++ [last] →
      fs' !! prefix_path env chain (last + 1) = Some (dataset_to_dict env dsi).
Proof.
  intros Hrun.
  destruct (translate_hops_decompose env chain device idxs ds fs fs' t (Raise e) Hrun)
    as (done & blocks & dsi & t2 & Hdone & Hblocks & Hn & _ & Ht & Hw & i & rest & Hidxs & Hfail).
  destruct (translate_hops_ok env chain device done ds fs fs' _ dsi Hdone)
    as (Hloads & _ & Hwrites & Hkeep & Hfiles).
  exists done, i, rest, blocks, dsi, t2. split_and!; try done.
  - by rewrite Ht, file_writes_app, Hw, app_nil_r.
  - intros j Hj. destruct (Hfiles j Hj) as [[[s d] Hh] [cached Hcached]].
    destruct (hop_langs_prefix_path env chain j s d Hh) as (first & H0 & _ & Hd & Hp).
    exists first, d, cached. split_and!; try done.
    by rewrite load_dataset_full_run, <- Hp, Hcached.
  - intros before last ->. by apply translate_hops_last in Hdone as [Hfile _].
Qed.

(** C3. When the dataset class round-trips through its dictionary form,
    a second call with the same arguments after a completed first call
    returns the same dataset, changes no file and records no model load,
    no translation and no write: it is served by the full-chain file. *)
Theorem second_call_is_cache_hit src_lang dest_lang transition_langs fs fs' t dataset :
  (∀ ds, dataset_from_dict env (dataset_to_dict env ds) = ds) →
  get_translated_dataset env src_lang dest_lang transition_langs fs = (fs', t, Ok dataset) →
  get_translated_dataset env src_lang dest_lang transition_langs fs' = (fs', [], Ok dataset).
Proof.
  intros Hround Hfirst.
  destruct (fs !! translation_path env src_lang dest_lang transition_langs)
    as [content|] eqn:Hfull.
  - rewrite (get_translated_dataset_hit env _ _ _ _ content Hfull) in Hfirst.
    injection Hfirst as <- <- <-. by apply get_translated_dataset_hit.
  - destruct (decide (degenerate src_lang dest_lang transition_langs)) as [[-> ->]|Hnd].
    + unfold get_translated_dataset in Hfirst. rewrite String.eqb_refl in Hfirst.
      simpl in Hfirst. by rewrite bind_run, load_dataset_full_run, Hfull in Hfirst.
    + rewrite get_translated_dataset_miss in Hfirst by done.
      destruct (_translate_dataset_ok_hops env _ _ _ _ _ _ _ _ Hnd Hfull Hfirst)
        as (base & k & resume & _ & _ & _ & Hhops).
      apply translate_hops_last in Hhops as [Hfile _].
      unfold translation_langs in Hfile.
      rewrite Nat.add_1_r, prefix_path_full in Hfile.
      rewrite (get_translated_dataset_hit env _ _ _ _ _ Hfile). by rewrite Hround.
Qed.

(** C4, as the code has it.  A chain with two equal consecutive languages
    never loads a model, translates or writes.  It raises the
    configuration error when the request is not the degenerate one, the
    full-chain file is absent and the base dataset is present. *)
Theorem invalid_chain_does_no_work src_lang dest_lang transition_langs fs :
  adjacent_duplicate (translation_langs src_lang transition_langs dest_lang) →
  (∃ r, get_translated_dataset env src_lang dest_lang transition_langs fs = (fs, [], r)) ∧
  (¬ degenerate src_lang dest_lang transition_langs →
   fs !! translation_path env src_lang dest_lang transition_langs = None →
   is_Some (fs !! translation_path env src_lang src_lang []) →
   ∃ msg, get_translated_dataset env src_lang dest_lang transition_langs fs =
            (fs, [], Raise (ValueError msg))).
Proof.
  intros Hdup.
  assert (¬ degenerate src_lang dest_lang transition_langs →
          fs !! translation_path env src_lang dest_lang transition_langs = None →
          is_Some (fs !! translation_path env src_lang src_lang []) →
          ∃ msg, get_translated_dataset env src_lang dest_lang transition_langs fs =
                   (fs, [], Raise (ValueError msg))) as Hraise.
  { intros Hnd Hfull Hbase. rewrite get_translated_dataset_miss by done.
    by apply _translate_dataset_invalid. }
  split; [|done].
  destruct (fs !! translation_path env src_lang dest_lang transition_langs)
    as [content|] eqn:Hfull.
  - eexists. by apply get_translated_dataset_hit.
  - destruct (decide (degenerate src_lang dest_lang transition_langs)) as [[-> ->]|Hnd].
    + eexists. unfold get_translated_dataset. rewrite String.eqb_refl. simpl.
      by rewrite bind_run, load_dataset_full_run, Hfull.
    + destruct (fs !! translation_path env src_lang src_lang []) as [base|] eqn:Hbase.
      * destruct Hraise as [msg Hmsg]; [done|done|eauto|]. by eexists.
      * eexists. rewrite get_translated_dataset_miss by done.
        by apply _translate_dataset_no_base.
Qed.

(** C5. After a completed translation through the chain, the element at
    each position carries the id [<original>_<chain joined by "_">], where
    the original id is underscore-free, whether the resume dataset held
    the original id itself (translation from scratch) or the original id
    followed by an underscore and a chain suffix (cached prefix). *)
Theorem id_lineage src_lang dest_lang transition_langs fs fs' t dataset base k resume :
  ¬ degenerate src_lang dest_lang transition_langs →
  fs !! translation_path env src_lang dest_lang transition_langs = None →
  fs !! translation_path env src_lang src_lang [] = Some base →
  find_cached_prefix env (translation_langs src_lang transition_langs dest_lang)
    (length (translation_langs src_lang transition_langs dest_lang) - 1)
    (dataset_from_dict env base) fs = (fs, [], Ok (k, resume)) →
  get_translated_dataset env src_lang dest_lang transition_langs fs = (fs', t, Ok dataset) →
  length dataset = length resume ∧
  ∀ j element original suffix,
    resume !! j = Some element →
    underscore_free original = true →
    id element = original ∨ id element = original +:+ "_" +:+ suffix →
    ∃ translated,
      dataset !! j = Some translated ∧
      id translated =
        original +:+ "_" +:+ join "_" (translation_langs src_lang transition_langs dest_lang).
Proof.
  intros Hnd Hfull Hbase Hscan Hrun.
  rewrite get_translated_dataset_miss in Hrun by done.
  destruct (_translate_dataset_ok_hops env _ _ _ _ _ _ _ _ Hnd Hfull Hrun)
    as (base' & k' & resume' & Hbase' & Hscan' & _ & Hhops).
  unfold translation_langs in Hscan. rewrite chain_last_index in Hscan.
  fold (translation_langs src_lang transition_langs dest_lang) in Hscan.
  rewrite Hbase in Hbase'. injection Hbase' as <-.
  rewrite Hscan in Hscan'. injection Hscan' as <- <-.
  apply translate_hops_last in Hhops as [_ Hids].
  assert (take (length transition_langs + 2)
            (translation_langs src_lang transition_langs dest_lang)
          = translation_langs src_lang transition_langs dest_lang) as Htake.
  { apply take_ge. unfold translation_langs. simpl. rewrite length_app. simpl. lia. }
  split.
  - by rewrite <- (length_map id dataset), Hids, length_map.
  - intros j element original suffix Hj Hfree Hid.
    assert (map id dataset !! j =
            Some (hop_id (translation_langs src_lang transition_langs dest_lang)
                    (length transition_langs) (id element))) as Hlook
      by (by rewrite Hids, map_lookup, Hj).
    rewrite map_lookup in Hlook.
    destruct (dataset !! j) as [translated|]; [|done]. injection Hlook as Hlook.
    exists translated. split; [done|]. rewrite Hlook. unfold hop_id. rewrite Htake.
    destruct Hid as [->| ->].
    + by rewrite split_head_free.
    + by rewrite split_head_free_app.
Qed.

(** C6. For a model whose maximum generation length is at least 2, with
    [M] its half and [N] the number of tokens of the text, chunking returns
    [ceil(N / M)] chunks; chunk [j] holds the tokens [j*M .. j*M + M) and has
    at most [M] of them; the chunks concatenate to the whole token list;
    and when every chunk is generated the translation is the decoded
    chunks, in order, joined by one space. *)
Theorem chunking_correct text tokenizer model ids mask :
  tokenize env tokenizer text = (ids, mask) →
  (2 ≤ config_max_length env model)%Z →
  ∃ chunks,
    (∀ fs, _get_tokenized_chunks env text tokenizer (config_max_length env model `div` 2)%Z fs
             = (fs, [], Ok chunks)) ∧
    length chunks =
      ceil_div (length ids) (Z.to_nat (config_max_length env model `div` 2)) ∧
    (∀ j chunk, chunks !! j = Some chunk →
       input_ids chunk =
         slice (j * Z.to_nat (config_max_length env model `div` 2))
               (j * Z.to_nat (config_max_length env model `div` 2)
                + Z.to_nat (config_max_length env model `div` 2)) ids ∧
       length (input_ids chunk) ≤ Z.to_nat (config_max_length env model `div` 2)) ∧
    concat (map input_ids chunks) = ids ∧
    (∀ fs outputs, mapM (generate env model) chunks = Some outputs →
       _translate_text env text tokenizer model fs =
         (fs, [TranslateText text], Ok (join " " (map (decode env tokenizer) outputs)))).
Proof.
  intros Htok Hmax.
  assert (0 < config_max_length env model `div` 2)%Z as Hpos
    by (apply Z.div_str_pos; lia).
  set (M := Z.to_nat (config_max_length env model `div` 2)).
  assert (0 < M) as HM by (unfold M; lia).
  exists (map (fun j => chunk_at ids mask M (j * M)) (seq 0 (ceil_div (length ids) M))).
  split_and!.
  - intros fs. by apply _get_tokenized_chunks_run.
  - by rewrite length_map, length_seq.
  - intros j chunk Hj. rewrite map_lookup in Hj.
    destruct (seq 0 (ceil_div (length ids) M) !! j) as [j'|] eqn:Hseq; [|done].
    apply lookup_seq in Hseq as [-> _]. injection Hj as <-. simpl. split; [done|].
    unfold slice. rewrite length_take. lia.
  - rewrite map_map. simpl. unfold slice.
    rewrite (map_ext _ (fun j => take M (drop (j * M) ids)))
      by (intros j; f_equal; lia).
    rewrite concat_slices. apply take_ge. by apply ceil_div_covers.
  - intros fs outputs Hout. unfold _translate_text. rewrite bind_run. simpl.
    rewrite bind_run, (_get_tokenized_chunks_run env text tokenizer _ ids mask fs Htok Hpos).
    rewrite bind_run. fold M. by rewrite (translate_chunks_ok env tokenizer model _ outputs fs Hout).
Qed.

(** C7. With equal source and destination language and no intermediate
    language the call returns the dataset of the base file of that
    language as loaded (or the loader's file-not-found error), changes no
    file, and records no model load, translation or write. *)
Theorem degenerate_pass_through lang fs :
  get_translated_dataset env lang lang [] fs =
    (fs, [],
     match fs !! translation_path env lang lang [] with
     | Some base => Ok (dataset_from_dict env base)
     | None => Raise (FileNotFoundError (translation_path env lang lang []))
     end).
Proof.
  unfold get_translated_dataset. rewrite String.eqb_refl. simpl.
  rewrite bind_run, load_dataset_full_run.
  by destruct (fs !! translation_path env lang lang []).
Qed.

(** C8. A present full-chain file is returned without validation: the call
    succeeds with the file's dataset and does nothing else, also for a
    chain with two equal consecutive languages, for which
    [_translate_dataset] itself raises the configuration error. *)
Theorem cached_chain_skips_validation src_lang dest_lang transition_langs fs content :
  fs !! translation_path env src_lang dest_lang transition_langs = Some content →
  get_translated_dataset env src_lang dest_lang transition_langs fs =
    (fs, [], Ok (dataset_from_dict env content)) ∧
  (adjacent_duplicate (translation_langs src_lang transition_langs dest_lang) →
   ¬ degenerate src_lang dest_lang transition_langs →
   is_Some (fs !! translation_path env src_lang src_lang []) →
   ∃ msg, _translate_dataset env src_lang dest_lang transition_langs "cuda" fs =
            (fs, [], Raise (ValueError msg))).
Proof.
  intros Hfile. split; [by apply get_translated_dataset_hit|].
  intros Hdup Hnd Hbase. by apply _translate_dataset_invalid.
Qed.

(** C9. When neither the full-chain file nor the base dataset file of the
    source language exists, the call raises the file-not-found error for
    the base file, whatever prefixes are cached. *)
Theorem missing_base_dataset_raises src_lang dest_lang transition_langs fs :
  fs !! translation_path env src_lang dest_lang transition_langs = None →
  fs !! translation_path env src_lang src_lang [] = None →
  get_translated_dataset env src_lang dest_lang transition_langs fs =
    (fs, [], Raise (FileNotFoundError (translation_path env src_lang src_lang []))).
Proof.
  intros Hfull Hbase.
  destruct (decide (degenerate src_lang dest_lang transition_langs)) as [[-> ->]|Hnd].
  - unfold get_translated_dataset. rewrite String.eqb_refl. simpl.
    by rewrite bind_run, load_dataset_full_run, Hbase.
  - rewrite get_translated_dataset_miss by done. by apply _translate_dataset_no_base.
Qed.

(** C10. A completed run of [_translate_dataset] loaded one model per hop
    from the resume index [k] to the end of the chain, in hop order, with
    a load for every occurrence of a language pair: the number of loads is
    the chain length minus one minus [k]. *)
Theorem one_model_load_per_translated_hop src_lang dest_lang transition_langs device
    fs fs' t dataset :
  ¬ degenerate src_lang dest_lang transition_langs →
  _translate_dataset env src_lang dest_lang transition_langs device fs = (fs', t, Ok dataset) →
  ∃ base k resume,
    fs !! translation_path env src_lang src_lang [] = Some base ∧
    find_cached_prefix env (translation_langs src_lang transition_langs dest_lang)
      (length (translation_langs src_lang transition_langs dest_lang) - 1)
      (dataset_from_dict env base) fs = (fs, [], Ok (k, resume)) ∧
    model_loads t =
      omap (hop_langs (translation_langs src_lang transition_langs dest_lang))
           (seq k (length (translation_langs src_lang transition_langs dest_lang) - 1 - k)) ∧
    length (model_loads t) =
      length (translation_langs src_lang transition_langs dest_lang) - 1 - k.
Proof.
  intros Hnd Hrun.
  destruct (_translate_dataset_ok_inv env _ _ _ _ _ _ _ _ Hnd Hrun) as [[base Hbase] Hvalid].
  unfold translation_langs in *. rewrite chain_last_index.
  destruct (find_cached_prefix_run env ([src_lang] ++ transition_langs ++ [dest_lang])
              (S (length transition_langs)) (dataset_from_dict env base) fs)
    as (k & resume & Hscan & Hk & _).
  { simpl. rewrite length_app. simpl. lia. }
  rewrite (_translate_dataset_resume env _ _ _ device fs base Hnd Hvalid Hbase k resume Hscan)
    in Hrun.
  apply translate_hops_ok in Hrun as (Hloads & Hlen & _).
  exists base, k, resume. split_and!; try done. by rewrite Hlen, length_seq.
Qed.

End Claims.

(** ** The properties on concrete runs *)

Ltac no_duplicate :=
  let i := fresh "i" in
  let a := fresh "a" in
  let H1 := fresh "H" in
  let H2 := fresh "H" in
  intros (i & a & H1 & H2);
  do 5 (destruct i as [|i]; simpl in H1, H2; try congruence).

Ltac not_degenerate := intros [? ?]; congruence.

Module Witness.
Import Demo.

(** Chain en, fr, es with the prefix en, fr cached: the scan stops at
    index 1, the call is the hop fr -> es on the cached dataset and nothing
    else, and it completes. *)
Lemma resume_from_longest_cached_prefix_witness :
  fs_prefix !! translation_path env "en" "en" [] = Some [e7; e8] ∧
  fs_prefix !! translation_path env "en" "es" ["fr"] = None ∧
  find_cached_prefix env ["en"; "fr"; "es"] 2 [e7; e8] fs_prefix
    = (fs_prefix, [], Ok (1, [e7_fr; e8_fr])) ∧
  get_translated_dataset env "en" "es" ["fr"] fs_prefix
    = translate_hops env ["en"; "fr"; "es"] "cuda" [1] [e7_fr; e8_fr] fs_prefix ∧
  ∃ fs' t dataset,
    get_translated_dataset env "en" "es" ["fr"] fs_prefix = (fs', t, Ok dataset) ∧
    model_loads t = [("fr", "es")] ∧
    translated_texts t = [text e7_fr; text e8_fr] ∧
    file_writes t = ["translated/en_fr_es.json"].
Proof.
  assert (fs_prefix !! translation_path env "en" "en" [] = Some [e7; e8]) as Hbase
    by reflexivity.
  assert (fs_prefix !! translation_path env "en" "es" ["fr"] = None) as Hfull
    by reflexivity.
  assert (find_cached_prefix env ["en"; "fr"; "es"] 2 [e7; e8] fs_prefix
          = (fs_prefix, [], Ok (1, [e7_fr; e8_fr]))) as Hone by reflexivity.
  destruct (resume_from_longest_cached_prefix env "en" "es" ["fr"] fs_prefix [e7; e8])
    as (k & resume & Hscan & _ & _ & _ & _ & Hcall & _ & Hdone);
    [not_degenerate | no_duplicate | exact Hbase | exact Hfull |].
  pose proof (eq_trans (eq_sym Hscan) Hone) as Heq. injection Heq as -> ->.
  split_and!; [exact Hbase | exact Hfull | exact Hone | exact Hcall |].
  destruct (get_translated_dataset env "en" "es" ["fr"] fs_prefix) as [[fs' t] r] eqn:Hrun.
  assert (∃ dataset, r = Ok dataset) as (dataset & ->)
    by (vm_compute in Hrun; injection Hrun as <- <- <-; by eexists).
  destruct (Hdone fs' t dataset eq_refl) as (Hloads & _ & _ & _ & Hwrites).
  exists fs', t, dataset. split_and!; [reflexivity | exact Hloads | | exact Hwrites].
  vm_compute in Hrun. by injection Hrun as _ <- _.
Defined.

(** Chain en, fr, de over two elements: the hop en -> fr completes and
    writes its file, the hop fr -> de fails on the second element. *)
Lemma failed_hop_persists_nothing_witness :
  ∃ fs' t e dsi t2,
    translate_hops env ["en"; "fr"; "de"] "cuda" [0; 1] [e7; e9] fs_base = (fs', t, Raise e) ∧
    translate_hop env ["en"; "fr"; "de"] "cuda" 1 dsi fs' = (fs', t2, Raise e) ∧
    file_writes t2 = [] ∧
    file_writes t = ["translated/en_fr.json"] ∧
    fs' !! "translated/en_fr_de.json" = None ∧
    ∃ cached, load_dataset_full env "fr" [["en"]] fs' = (fs', [], Ok cached).
Proof.
  destruct (translate_hops env ["en"; "fr"; "de"] "cuda" [0; 1] [e7; e9] fs_base)
    as [[fs' t] r] eqn:Hrun.
  assert (r = Raise (BackendError "generate") ∧
          file_writes t = ["translated/en_fr.json"] ∧
          fs' !! "translated/en_fr_de.json" = None) as (-> & Ht & Habsent)
    by (vm_compute in Hrun; by injection Hrun as <- <- <-).
  destruct (failed_hop_persists_nothing env _ _ _ _ _ _ _ _ Hrun)
    as (done & i & rest & blocks & dsi & t2 & Hidxs & _ & _ & _ & Hfail & _ & Hw2 & Hw & _ & Hload & _).
  rewrite Ht in Hw.
  destruct done as [|j [|j' done]]; try discriminate Hw.
  injection Hidxs as <- <- <-.
  destruct (Hload 0) as (first & dest_lang & cached & H0 & H1 & Hcached);
    [apply list_elem_of_here|].
  injection H0 as <-. injection H1 as <-.
  exists fs', t, (BackendError "generate"), dsi, t2.
  split_and!; [reflexivity | exact Hfail | exact Hw2 | exact Ht | exact Habsent |].
  exists cached. exact Hcached.
Defined.

(** A first call over en, fr, es from the base dataset, then the same call
    again on the files the first one left. *)
Lemma second_call_is_cache_hit_witness :
  ∃ fs' t dataset,
    get_translated_dataset env "en" "es" ["fr"] fs_base = (fs', t, Ok dataset) ∧
    length (model_loads t) = 2 ∧
    get_translated_dataset env "en" "es" ["fr"] fs' = (fs', [], Ok dataset).
Proof.
  destruct (get_translated_dataset env "en" "es" ["fr"] fs_base) as [[fs' t] r] eqn:Hrun.
  assert (∃ dataset, r = Ok dataset ∧ length (model_loads t) = 2) as (dataset & -> & Hlen)
    by (vm_compute in Hrun; injection Hrun as <- <- <-; by eexists).
  exists fs', t, dataset. split_and!; [reflexivity | exact Hlen |].
  apply (second_call_is_cache_hit env "en" "es" ["fr"] fs_base fs' t dataset);
    [reflexivity | exact Hrun].
Defined.

(** The chain en, en, es without a full-chain file: the configuration
    error, with nothing loaded, translated or written. *)
Lemma invalid_chain_does_no_work_witness :
  adjacent_duplicate (translation_langs "en" ["en"] "es") ∧
  ∃ msg, get_translated_dataset env "en" "es" ["en"] fs_base
           = (fs_base, [], Raise (ValueError msg)).
Proof.
  assert (adjacent_duplicate (translation_langs "en" ["en"] "es")) as Hdup
    by (exists 0, "en"; split; reflexivity).
  split; [exact Hdup|].
  apply (invalid_chain_does_no_work env "en" "es" ["en"] fs_base Hdup);
    [not_degenerate | reflexivity | by eexists].
Defined.

(** Element "7" through en, fr, es: from the base dataset, and from the
    cached prefix en, fr whose element is already called "7_en_fr". *)
Lemma id_lineage_witness :
  (∃ fs' t dataset translated,
     get_translated_dataset env "en" "es" ["fr"] fs_base = (fs', t, Ok dataset) ∧
     dataset !! 0 = Some translated ∧ id translated = "7_en_fr_es") ∧
  (∃ fs' t dataset translated,
     get_translated_dataset env "en" "es" ["fr"] fs_prefix = (fs', t, Ok dataset) ∧
     dataset !! 0 = Some translated ∧ id translated = "7_en_fr_es").
Proof.
  split.
  - destruct (get_translated_dataset env "en" "es" ["fr"] fs_base) as [[fs' t] r] eqn:Hrun.
    assert (∃ dataset, r = Ok dataset) as (dataset & ->)
      by (vm_compute in Hrun; injection Hrun as <- <- <-; by eexists).
    destruct (id_lineage env "en" "es" ["fr"] fs_base fs' t dataset [e7; e8] 0 [e7; e8])
      as [_ Hids]; [not_degenerate | reflexivity | reflexivity | reflexivity | exact Hrun |].
    destruct (Hids 0 e7 "7" "") as (translated & Hlook & Hid);
      [reflexivity | reflexivity | by left |].
    exists fs', t, dataset, translated. split_and!; [reflexivity | exact Hlook | exact Hid].
  - destruct (get_translated_dataset env "en" "es" ["fr"] fs_prefix) as [[fs' t] r] eqn:Hrun.
    assert (∃ dataset, r = Ok dataset) as (dataset & ->)
      by (vm_compute in Hrun; injection Hrun as <- <- <-; by eexists).
    destruct (id_lineage env "en" "es" ["fr"] fs_prefix fs' t dataset [e7; e8] 1 [e7_fr; e8_fr])
      as [_ Hids]; [not_degenerate | reflexivity | reflexivity | reflexivity | exact Hrun |].
    destruct (Hids 0 e7_fr "7" "en_fr") as (translated & Hlook & Hid);
      [reflexivity | reflexivity | by right |].
    exists fs', t, dataset, translated. split_and!; [reflexivity | exact Hlook | exact Hid].
Defined.

(** Eleven tokens with a maximum generation length of 6: four chunks of at
    most three tokens. *)
Lemma chunking_correct_witness :
  tokenize env tt "hello world" = (codes "hello world", map (fun _ => 1%Z) (codes "hello world")) ∧
  (2 ≤ config_max_length env false)%Z ∧
  ∃ chunks,
    _get_tokenized_chunks env "hello world" tt 3%Z ∅ = (∅, [], Ok chunks) ∧
    length chunks = 4 ∧
    concat (map input_ids chunks) = codes "hello world" ∧
    _translate_text env "hello world" tt false ∅
      = (∅, [TranslateText "hello world"], Ok "leh  ol row dl").
Proof.
  split; [reflexivity|]. split; [simpl; lia|].
  destruct (chunking_correct env "hello world" tt false (codes "hello world")
              (map (fun _ => 1%Z) (codes "hello world")))
    as (chunks & Hrun & Hlen & _ & Hcat & Htext); [reflexivity | simpl; lia |].
  exists chunks. split_and!; [exact (Hrun ∅) | exact Hlen | exact Hcat |].
  assert (chunks = map (fun ids => mkChunk ids [1; 1; 1]%Z)
                     [[104; 101; 108]; [108; 111; 32]; [119; 111; 114]]%Z
                   ++ [mkChunk [108; 100]%Z [1; 1]%Z]) as ->.
  { pose proof (Hrun ∅) as H. vm_compute in H. by injection H as <-. }
  apply (Htext ∅ [[108; 101; 104]; [32; 111; 108]; [114; 111; 119]; [100; 108]]%Z).
  reflexivity.
Defined.

(** The chain en, en, es with its full-chain file present. *)
Lemma cached_chain_skips_validation_witness :
  adjacent_duplicate (translation_langs "en" ["en"] "es") ∧
  fs_cached_invalid !! translation_path env "en" "es" ["en"] = Some [e7; e8] ∧
  get_translated_dataset env "en" "es" ["en"] fs_cached_invalid
    = (fs_cached_invalid, [], Ok [e7; e8]) ∧
  ∃ msg, _translate_dataset env "en" "es" ["en"] "cuda" fs_cached_invalid
           = (fs_cached_invalid, [], Raise (ValueError msg)).
Proof.
  assert (adjacent_duplicate (translation_langs "en" ["en"] "es")) as Hdup
    by (exists 0, "en"; split; reflexivity).
  destruct (cached_chain_skips_validation env "en" "es" ["en"] fs_cached_invalid [e7; e8])
    as [Hhit Hraise]; [reflexivity|].
  split_and!; [exact Hdup | reflexivity | exact Hhit |].
  apply Hraise; [exact Hdup | not_degenerate | by eexists].
Defined.

(** The chain en, fr, es with the prefix en, fr cached but no base file. *)
Lemma missing_base_dataset_raises_witness :
  is_Some (fs_no_base !! prefix_path env (translation_langs "en" ["fr"] "es") 1) ∧
  get_translated_dataset env "en" "es" ["fr"] fs_no_base
    = (fs_no_base, [], Raise (FileNotFoundError "translated/en_en.json")).
Proof.
  split; [by eexists|].
  apply (missing_base_dataset_raises env "en" "es" ["fr"] fs_no_base); reflexivity.
Defined.

(** The chain en, fr, en, fr from the base dataset: three hops, three
    loads, two of them for the pair en -> fr. *)
Lemma one_model_load_per_translated_hop_witness :
  ∃ fs' t dataset,
    _translate_dataset env "en" "fr" ["fr"; "en"] "cuda" fs_base = (fs', t, Ok dataset) ∧
    model_loads t = [("en", "fr"); ("fr", "en"); ("en", "fr")] ∧
    length (model_loads t) = 3.
Proof.
  destruct (_translate_dataset env "en" "fr" ["fr"; "en"] "cuda" fs_base)
    as [[fs' t] r] eqn:Hrun.
  assert (∃ dataset, r = Ok dataset) as (dataset & ->)
    by (vm_compute in Hrun; injection Hrun as <- <- <-; by eexists).
  destruct (one_model_load_per_translated_hop env "en" "fr" ["fr"; "en"] "cuda"
              fs_base fs' t dataset)
    as (base & k & resume & Hbase & Hscan & Hloads & Hlen); [not_degenerate | exact Hrun |].
  injection Hbase as <-.
  assert (find_cached_prefix env (translation_langs "en" ["fr"; "en"] "fr") 3 [e7; e8] fs_base
          = (fs_base, [], Ok (0, [e7; e8]))) as Hzero by reflexivity.
  pose proof (eq_trans (eq_sym Hscan) Hzero) as Heq. injection Heq as -> ->.
  exists fs', t, dataset. split_and!; [reflexivity | exact Hloads | exact Hlen].
Defined.

End Witness.

(** The chain en, en, es has two equal consecutive languages, and with its
    full-chain file present the call returns that file's dataset: no
    configuration error is raised. *)
Lemma invalid_chain_cached_returns :
  adjacent_duplicate (translation_langs "en" ["en"] "es") ∧
  get_translated_dataset Demo.env "en" "es" ["en"] Demo.fs_cached_invalid
    = (Demo.fs_cached_invalid, [], Ok [Demo.e7; Demo.e8]) ∧
  ¬ ∃ msg, (get_translated_dataset Demo.env "en" "es" ["en"] Demo.fs_cached_invalid).2
             = Raise (ValueError msg).
Proof.
  split_and!.
  - exists 0, "en". split; reflexivity.
  - reflexivity.
  - intros [msg H]. vm_compute in H. discriminate H.
Qed.


(** ** Further properties of the translation pipeline *)

Section PipelineMore.
Context (env : Environment).
Implicit Types fs : gmap string (list (Dict env)).
Implicit Types chain : list string.

(** The element loop copies the label of every element. *)
Lemma translate_elements_categories chain i tokenizer model ds fs fs' t ds' :
  translate_elements env chain i tokenizer model ds fs = (fs', t, Ok ds') →
  map category ds' = map category ds.
Proof.
  revert fs' t ds'. induction ds as [|e rest IH]; intros fs' t ds'; simpl.
  - by intros [= _ _ <-].
  - rewrite bind_run.
    destruct (_translate_text_pure env (text e) tokenizer model fs) as [[new_text|err] ->];
      [|done].
    rewrite bind_run.
    destruct (translate_elements env chain i tokenizer model rest fs)
      as [[fs1 t1] [others|err]] eqn:Hrest; [|done].
    intros [= _ _ <-]. simpl. f_equal. by eapply IH.
Qed.

Lemma translate_hop_categories chain device i ds fs fs' t ds' :
  translate_hop env chain device i ds fs = (fs', t, Ok ds') →
  map category ds' = map category ds.
Proof.
  unfold translate_hop. rewrite bind_run, index_run.
  destruct (chain !! i) as [s|]; [|done]. simpl. rewrite bind_run, index_run.
  destruct (chain !! (i + 1)) as [d|]; [|done]. simpl. rewrite bind_run.
  destruct (_load_translation_model_run env s d device fs) as [[[model tokenizer]|err] ->];
    [|done].
  rewrite bind_run.
  destruct (translate_elements env chain i tokenizer model ds fs)
    as [[fs1 t1] [ds1|err]] eqn:Hel; [|done].
  apply translate_elements_categories in Hel.
  rewrite bind_run, index_run. destruct (chain !! 0); [|done]. simpl.
  by intros [= _ _ <-].
Qed.

Lemma translate_hops_categories chain device idxs ds fs fs' t ds' :
  translate_hops env chain device idxs ds fs = (fs', t, Ok ds') →
  map category ds' = map category ds.
Proof.
  revert ds fs fs' t. induction idxs as [|i rest IH]; intros ds fs fs' t; simpl.
  - by intros [= _ _ <-].
  - rewrite bind_run.
    destruct (translate_hop env chain device i ds fs) as [[fs1 t1] [ds1|err]] eqn:Hhop;
      [|done].
    apply translate_hop_categories in Hhop.
    destruct (translate_hops env chain device rest ds1 fs1) as [[fs2 t2] r2] eqn:Hrest.
    intros [= <- <- ->]. apply IH in Hrest. congruence.
Qed.

(** The hop loop only ever changes the files of the hops it runs. *)
Lemma translate_hops_frame chain device idxs ds fs fs' t r p :
  translate_hops env chain device idxs ds fs = (fs', t, r) →
  (∀ i, i ∈ idxs → p ≠ prefix_path env chain (i + 1)) →
  fs' !! p = fs !! p.
Proof.
  revert ds fs fs' t r. induction idxs as [|i rest IH]; intros ds fs fs' t r; simpl.
  - by intros [= <- _ _] _.
  - rewrite bind_run. intros Hrun Hp.
    destruct (translate_hop_run env chain device i ds fs) as (fs1 & t1 & r1 & Hhop & Hspec).
    rewrite Hhop in Hrun. destruct r1 as [ds1|err].
    + destruct Hspec as (s & d & _ & -> & _ & _).
      destruct (translate_hops env chain device rest ds1 _) as [[fs2 t2] r2] eqn:Hrest.
      injection Hrun as <- _ _.
      rewrite (IH _ _ _ _ _ Hrest) by (intros j Hj; apply Hp; by apply list_elem_of_further).
      apply lookup_insert_ne. symmetry. apply Hp. apply list_elem_of_here.
    + destruct Hspec as (-> & _). by injection Hrun as <- _ _.
Qed.

(** [_translate_dataset] either stops before the hop loop, with the files
    untouched and nothing recorded, or is the hop loop from some index. *)
Lemma _translate_dataset_cases src dest trans device fs :
  (∃ r, _translate_dataset env src dest trans device fs = (fs, [], r)) ∨
  (∃ k resume,
     _translate_dataset env src dest trans device fs =
       translate_hops env (translation_langs src trans dest) device
         (seq k (S (length trans) - k)) resume fs).
Proof.
  destruct (fs !! translation_path env src src []) as [base|] eqn:Hbase;
    [|left; eexists; by apply _translate_dataset_no_base].
  destruct (decide (degenerate src dest trans)) as [[-> ->]|Hnd].
  { left. unfold _translate_dataset.
    rewrite (bind_pure_ok _ _ fs base) by (by rewrite load_dataset_full_run, Hbase).
    simpl. rewrite String.eqb_refl. by eexists. }
  unfold _translate_dataset.
  rewrite (bind_pure_ok _ _ fs base) by (by rewrite load_dataset_full_run, Hbase).
  pose proof (not_degenerate_test _ _ _ Hnd) as Htest. rewrite andb_comm in Htest.
  rewrite Htest.
  destruct (check_transitions_run env
              (zip (removelast ([src] ++ trans ++ [dest])) (tail ([src] ++ trans ++ [dest]))) fs)
    as (r & Hcheck & _ & Hraise).
  destruct r as [[]|err].
  - right. rewrite (bind_pure_ok _ _ fs tt Hcheck), chain_last_index.
    destruct (find_cached_prefix_run env ([src] ++ trans ++ [dest]) (S (length trans))
                (dataset_from_dict env base) fs) as (k & resume & Hscan & _).
    { simpl. rewrite length_app. simpl. lia. }
    exists k, resume. by rewrite (bind_pure_ok _ _ fs (k, resume) Hscan).
  - left. eexists. by apply bind_pure_raise.
Qed.

End PipelineMore.

Section PipelineExtras.
Context (env : Environment).
Implicit Types fs : gmap string (list (Dict env)).

(** Whatever the outcome, the hop loop removes no file. *)
Lemma translate_hops_keeps chain device idxs ds fs fs' t r p :
  translate_hops env chain device idxs ds fs = (fs', t, r) →
  is_Some (fs !! p) → is_Some (fs' !! p).
Proof.
  revert ds fs fs' t r. induction idxs as [|i rest IH]; intros ds fs fs' t r; simpl.
  - by intros [= <- _ _].
  - rewrite bind_run. intros Hrun Hp.
    destruct (translate_hop_run env chain device i ds fs) as (fs1 & t1 & r1 & Hhop & Hspec).
    rewrite Hhop in Hrun. destruct r1 as [ds1|err].
    + destruct Hspec as (s & d & _ & -> & _ & _).
      destruct (translate_hops env chain device rest ds1 _) as [[fs2 t2] r2] eqn:Hrest.
      injection Hrun as <- _ _. apply (IH _ _ _ _ _ Hrest).
      rewrite lookup_insert. case_decide; eauto.
    + destruct Hspec as (-> & _). by injection Hrun as <- _ _.
Qed.

(** X1. A completed translating call returns the elements of the resume
    dataset in their order, each with the label it had: translation
    changes ids and texts only. *)
Theorem translation_keeps_labels src_lang dest_lang transition_langs fs fs' t dataset
    base k resume :
  ¬ degenerate src_lang dest_lang transition_langs →
  fs !! translation_path env src_lang dest_lang transition_langs = None →
  fs !! translation_path env src_lang src_lang [] = Some base →
  find_cached_prefix env (translation_langs src_lang transition_langs dest_lang)
    (length (translation_langs src_lang transition_langs dest_lang) - 1)
    (dataset_from_dict env base) fs = (fs, [], Ok (k, resume)) →
  get_translated_dataset env src_lang dest_lang transition_langs fs = (fs', t, Ok dataset) →
  map category dataset = map category resume.
Proof.
  intros Hnd Hfull Hbase Hscan Hrun.
  rewrite get_translated_dataset_miss in Hrun by done.
  destruct (_translate_dataset_ok_hops env _ _ _ _ _ _ _ _ Hnd Hfull Hrun)
    as (base' & k' & resume' & Hbase' & Hscan' & _ & Hhops).
  unfold translation_langs in Hscan. rewrite chain_last_index in Hscan.
  fold (translation_langs src_lang transition_langs dest_lang) in Hscan.
  rewrite Hbase in Hbase'. injection Hbase' as <-.
  rewrite Hscan in Hscan'. injection Hscan' as <- <-.
  by apply translate_hops_categories in Hhops.
Qed.

(** X2. Whatever its arguments and its outcome, a call changes no file
    other than the cache files of the prefixes of the requested chain
    (indices 1 to the end), and removes no file. *)
Theorem only_chain_files_change src_lang dest_lang transition_langs fs fs' t r :
  get_translated_dataset env src_lang dest_lang transition_langs fs = (fs', t, r) →
  (∀ p, is_Some (fs !! p) → is_Some (fs' !! p)) ∧
  ∀ p,
    (∀ i, 1 ≤ i < length (translation_langs src_lang transition_langs dest_lang) →
          p ≠ prefix_path env (translation_langs src_lang transition_langs dest_lang) i) →
    fs' !! p = fs !! p.
Proof.
  intros Hrun.
  assert (fs' = fs ∨ ∃ k resume r',
            translate_hops env (translation_langs src_lang transition_langs dest_lang) "cuda"
              (seq k (S (length transition_langs) - k)) resume fs = (fs', t, r')) as Hcases.
  { destruct (fs !! translation_path env src_lang dest_lang transition_langs)
      as [content|] eqn:Hfull.
    - rewrite (get_translated_dataset_hit env _ _ _ _ content Hfull) in Hrun.
      left. by injection Hrun as <- _ _.
    - destruct (decide (degenerate src_lang dest_lang transition_langs)) as [[-> ->]|Hnd].
      + unfold get_translated_dataset in Hrun. rewrite String.eqb_refl in Hrun.
        simpl in Hrun. rewrite bind_run, load_dataset_full_run, Hfull in Hrun.
        left. by injection Hrun as <- _ _.
      + rewrite get_translated_dataset_miss in Hrun by done.
        destruct (_translate_dataset_cases env src_lang dest_lang transition_langs "cuda" fs)
          as [[r' Hstop]|(k & resume & Hloop)].
        * rewrite Hstop in Hrun. left. by injection Hrun as <- _ _.
        * rewrite Hloop in Hrun. right. by exists k, resume, r. }
  destruct Hcases as [->|(k & resume & r' & Hloop)]; [done|]. split.
  - intros p. by eapply translate_hops_keeps.
  - intros p Hp. eapply translate_hops_frame; [exact Hloop|].
    intros i Hi. apply Hp. apply elem_of_seq in Hi.
    unfold translation_langs. simpl. rewrite length_app. simpl. lia.
Qed.

(** X3. For a model whose maximum generation length is below 2 no text is
    translated: with a length of 0 or 1 the chunk size is 0 and the call
    raises the [range] error; with a negative length there is no chunk and
    the translation is the empty string, whatever the text. *)
Theorem short_max_length_translates_nothing text tokenizer model fs :
  (config_max_length env model < 2)%Z →
  _translate_text env text tokenizer model fs =
    (fs, [TranslateText text],
     if (config_max_length env model <? 0)%Z then Ok ""
     else Raise (ValueError "range() arg 3 must not be zero")).
Proof.
  intros Hmax. unfold _translate_text. rewrite bind_run. simpl. rewrite bind_run.
  unfold _get_tokenized_chunks. destruct (tokenize env tokenizer text) as [ids mask].
  destruct (Z.ltb_spec (config_max_length env model) 0) as [Hneg|Hpos].
  - assert (config_max_length env model `div` 2 < 0)%Z as Hdiv
      by (apply Z.div_lt_upper_bound; lia).
    destruct (Z.eqb_spec (config_max_length env model `div` 2) 0) as [|_]; [lia|].
    destruct (Z.ltb_spec (config_max_length env model `div` 2) 0) as [_|]; [|lia].
    reflexivity.
  - assert (config_max_length env model `div` 2 = 0)%Z as ->
      by (apply Z.div_small; lia).
    done.
Qed.

End PipelineExtras.

(** ** Further properties of the loader *)

Section LoaderExtras.
Context (env : Environment).
Implicit Types fs : gmap string (list (Dict env)).

Lemma collect_file_names_known dest_lang src_langs fs :
  language_known dest_lang src_langs →
  collect_file_names env dest_lang src_langs fs =
    (fs, [], Ok (map (entry_file env dest_lang) src_langs)).
Proof.
  induction src_langs as [|entry rest IH]; intros Hknown; simpl; [done|].
  assert (language_known dest_lang rest) as Hrest
    by (intros Hin; apply Hknown; by apply list_elem_of_further).
  rewrite bind_run. destruct entry as [|first others].
  - destruct (Hknown (list_elem_of_here _ _)) as [-> | ->]; simpl;
      by rewrite bind_run, (IH Hrest).
  - simpl. by rewrite bind_run, (IH Hrest).
Qed.

Lemma collect_file_names_unknown dest_lang src_langs fs :
  [] ∈ src_langs → dest_lang ≠ "en" → dest_lang ≠ "es" →
  collect_file_names env dest_lang src_langs fs =
    (fs, [], Raise (ValueError ("Unknown language: " +:+ dest_lang))).
Proof.
  intros Hin Hen Hes. induction src_langs as [|entry rest IH]; [by apply elem_of_nil in Hin|].
  simpl. rewrite bind_run. destruct entry as [|first others].
  - destruct (String.eqb_spec dest_lang "en") as [|_]; [done|].
    by destruct (String.eqb_spec dest_lang "es") as [|_].
  - simpl. apply elem_of_cons in Hin as [Hin|Hin]; [done|].
    by rewrite bind_run, (IH Hin).
Qed.

Lemma read_files_present names contents fs :
  Forall2 (fun name content => fs !! name = Some content) names contents →
  read_files env names fs = (fs, [], Ok (concat contents)).
Proof.
  induction 1 as [|name content names contents Hname _ IH]; simpl; [done|].
  rewrite bind_run. unfold path_exists. rewrite bool_decide_true by eauto. simpl.
  rewrite bind_run. unfold read_json. rewrite Hname. simpl. by rewrite bind_run, IH.
Qed.

Lemma read_files_missing present missing rest fs :
  Forall (fun name => is_Some (fs !! name)) present →
  fs !! missing = None →
  read_files env (present ++ missing :: rest) fs = (fs, [], Raise (FileNotFoundError missing)).
Proof.
  intros Hpresent Hmissing. induction Hpresent as [|name present [content Hname] _ IH]; simpl.
  - rewrite bind_run. unfold path_exists.
    rewrite bool_decide_false; [done|]. rewrite Hmissing. by intros [? ?].
  - rewrite bind_run. unfold path_exists. rewrite bool_decide_true by eauto. simpl.
    rewrite bind_run. unfold read_json. rewrite Hname. simpl. by rewrite bind_run, IH.
Qed.

(** The loader reads and never writes, whatever it returns. *)
Lemma read_files_pure names fs :
  ∃ r, read_files env names fs = (fs, [], r).
Proof.
  induction names as [|name names [r IH]]; simpl; [by eexists|].
  rewrite bind_run. unfold path_exists. simpl.
  destruct (bool_decide (is_Some (fs !! name))) eqn:E; [|by eexists].
  apply bool_decide_eq_true in E as [content Hname].
  rewrite bind_run. unfold read_json. rewrite Hname. simpl. rewrite bind_run, IH.
  destruct r; by eexists.
Qed.

(** When the files are read, they are read in order and all found. *)
Lemma read_files_ok_inv names fs fs' t dataset :
  read_files env names fs = (fs', t, Ok dataset) →
  ∃ contents,
    Forall2 (fun name content => fs !! name = Some content) names contents ∧
    dataset = concat contents.
Proof.
  revert fs' t dataset. induction names as [|name names IH]; intros fs' t dataset; simpl.
  - intros [= _ _ <-]. by exists [].
  - rewrite bind_run. unfold path_exists. simpl.
    destruct (bool_decide (is_Some (fs !! name))) eqn:E; [|done].
    apply bool_decide_eq_true in E as [content Hname].
    rewrite bind_run. unfold read_json. rewrite Hname. simpl. rewrite bind_run.
    destruct (read_files env names fs) as [[fs1 t1] [more|e]] eqn:Hrest; [|done].
    intros [= _ _ <-]. destruct (IH _ _ _ eq_refl) as (contents & Hall & ->).
    exists (content :: contents). split; [by constructor|done].
Qed.

Lemma load_dataset_full_unknown dest_lang src_langs fs :
  [] ∈ src_langs → dest_lang ≠ "en" → dest_lang ≠ "es" →
  load_dataset_full env dest_lang src_langs fs =
    (fs, [], Raise (ValueError ("Unknown language: " +:+ dest_lang))).
Proof.
  intros Hin Hen Hes. unfold load_dataset_full.
  apply bind_pure_raise. by apply collect_file_names_unknown.
Qed.

Lemma load_dataset_full_present dest_lang src_langs contents fs :
  language_known dest_lang src_langs →
  Forall2 (fun entry content => fs !! entry_file env dest_lang entry = Some content)
          src_langs contents →
  load_dataset_full env dest_lang src_langs fs = (fs, [], Ok (concat contents)).
Proof.
  intros Hknown Hall. unfold load_dataset_full.
  rewrite (bind_pure_ok _ _ fs _ (collect_file_names_known dest_lang src_langs fs Hknown)).
  apply read_files_present. by apply Forall2_fmap_l.
Qed.

(** X4. An empty entry of [src_langs] with a destination language other
    than "en" and "es" makes the loader raise the unknown-language error
    before it looks at any file, whatever the other entries are and
    whichever files are missing. *)
Theorem unknown_language_raises_first dest_lang src_langs fs :
  [] ∈ src_langs → dest_lang ≠ "en" → dest_lang ≠ "es" →
  load_dataset_full env dest_lang src_langs fs =
    (fs, [], Raise (ValueError ("Unknown language: " +:+ dest_lang))).
Proof. apply load_dataset_full_unknown. Qed.

(** X5. When every entry's file exists, the loader returns the arrays of
    the files concatenated in the order of [src_langs], and changes
    nothing. *)
Theorem loader_concatenates_in_order dest_lang src_langs contents fs :
  language_known dest_lang src_langs →
  Forall2 (fun entry content => fs !! entry_file env dest_lang entry = Some content)
          src_langs contents →
  load_dataset_full env dest_lang src_langs fs = (fs, [], Ok (concat contents)).
Proof. apply load_dataset_full_present. Qed.

(** X6. The loader raises the file-not-found error for the first entry, in
    the order of [src_langs], whose file is missing; files of later
    entries are not looked at and nothing is returned of the earlier
    ones. *)
Theorem first_missing_file_raises dest_lang present missing rest fs :
  language_known dest_lang (present ++ missing :: rest) →
  Forall (fun entry => is_Some (fs !! entry_file env dest_lang entry)) present →
  fs !! entry_file env dest_lang missing = None →
  load_dataset_full env dest_lang (present ++ missing :: rest) fs =
    (fs, [], Raise (FileNotFoundError (entry_file env dest_lang missing))).
Proof.
  intros Hknown Hpresent Hmissing. unfold load_dataset_full.
  rewrite (bind_pure_ok _ _ fs _ (collect_file_names_known dest_lang _ fs Hknown)).
  rewrite map_app. simpl. apply read_files_missing; [|done]. by apply Forall_fmap.
Qed.

(** X7. Loading two lists of entries at once succeeds exactly when
    loading each succeeds, and then returns the first result followed by
    the second. *)
Theorem loader_splits_over_append dest_lang entries1 entries2 fs dataset :
  load_dataset_full env dest_lang (entries1 ++ entries2) fs = (fs, [], Ok dataset) ↔
  ∃ dataset1 dataset2,
    load_dataset_full env dest_lang entries1 fs = (fs, [], Ok dataset1) ∧
    load_dataset_full env dest_lang entries2 fs = (fs, [], Ok dataset2) ∧
    dataset = dataset1 ++ dataset2.
Proof.
  assert (∀ entries data,
            load_dataset_full env dest_lang entries fs = (fs, [], Ok data) ↔
            language_known dest_lang entries ∧
            ∃ contents,
              Forall2 (fun entry content => fs !! entry_file env dest_lang entry = Some content)
                      entries contents ∧ data = concat contents) as Hchar.
  { intros entries data. split.
    - intros Hload.
      assert (language_known dest_lang entries) as Hknown.
      { intros Hin. destruct (String.eqb_spec dest_lang "en") as [|Hen]; [by left|].
        destruct (String.eqb_spec dest_lang "es") as [|Hes]; [by right|].
        by rewrite (load_dataset_full_unknown dest_lang entries fs Hin Hen Hes) in Hload. }
      split; [done|]. unfold load_dataset_full in Hload.
      rewrite (bind_pure_ok _ _ fs _ (collect_file_names_known dest_lang _ fs Hknown)) in Hload.
      apply read_files_ok_inv in Hload as (contents & Hall & ->).
      exists contents. split; [|done]. by apply Forall2_fmap_l in Hall.
    - intros (Hknown & contents & Hall & ->). by apply load_dataset_full_present. }
  rewrite Hchar. split.
  - intros (Hknown & contents & Hall & ->).
    apply Forall2_app_inv_l in Hall as (c1 & c2 & H1 & H2 & ->).
    exists (concat c1), (concat c2). split_and!.
    + apply Hchar. split; [|by exists c1].
      intros Hin. apply Hknown. apply elem_of_app. by left.
    + apply Hchar. split; [|by exists c2].
      intros Hin. apply Hknown. apply elem_of_app. by right.
    + apply concat_app.
  - intros (d1 & d2 & H1 & H2 & ->).
    apply Hchar in H1 as (Hk1 & c1 & Hall1 & ->).
    apply Hchar in H2 as (Hk2 & c2 & Hall2 & ->).
    split.
    + intros Hin. apply elem_of_app in Hin as [Hin|Hin]; [by apply Hk1|by apply Hk2].
    + exists (c1 ++ c2). split; [by apply Forall2_app|]. by rewrite concat_app.
Qed.

End LoaderExtras.

(** ** Properties of the word masking *)

Lemma split_space_not_nil s : split_space s ≠ [].
Proof.
  destruct s as [|c r]; simpl; [done|].
  destruct (Ascii.eqb c " "); [done|]. by destruct (split_space r).
Qed.

Lemma join_cons_cons sep x y l : join sep (x :: y :: l) = x +:+ sep +:+ join sep (y :: l).
Proof. reflexivity. Qed.

(** [' '.join(s.split(' '))] is [s]. *)
Lemma join_split_space s : join " " (split_space s) = s.
Proof.
  induction s as [|c r IH]; simpl; [done|].
  destruct (Ascii.eqb_spec c " ") as [->|Hc].
  - pose proof (split_space_not_nil r) as Hne.
    destruct (split_space r) as [|w ws] eqn:E; [done|].
    rewrite join_cons_cons, IH. reflexivity.
  - pose proof (split_space_not_nil r) as Hne.
    destruct (split_space r) as [|w ws] eqn:E; [done|].
    destruct ws as [|w' ws].
    + simpl in *. by rewrite IH.
    + rewrite join_cons_cons. rewrite join_cons_cons in IH. rewrite <- IH. reflexivity.
Qed.

(** The pieces hold no space. *)
Lemma split_space_space_free s : Forall (fun w => space_free w = true) (split_space s).
Proof.
  induction s as [|c r IH]; simpl; [by constructor|].
  destruct (Ascii.eqb c " ") eqn:Hc; [by constructor|].
  destruct (split_space r) as [|w ws]; [constructor; [simpl; by rewrite Hc|done]|].
  inversion IH; subst. constructor; [|done]. simpl. by rewrite Hc.
Qed.

Lemma split_space_app_space w s :
  space_free w = true → split_space (w +:+ " " +:+ s) = w :: split_space s.
Proof.
  induction w as [|c r IH]; simpl; [done|].
  destruct (Ascii.eqb c " "); simpl; [done|]. intros H. by rewrite IH.
Qed.

Lemma split_space_free w : space_free w = true → split_space w = [w].
Proof.
  induction w as [|c r IH]; simpl; [done|].
  destruct (Ascii.eqb c " "); simpl; [done|]. intros H. by rewrite IH.
Qed.

(** Space-free words joined by spaces split back into the same words. *)
Lemma split_space_join ws :
  ws ≠ [] → Forall (fun w => space_free w = true) ws → split_space (join " " ws) = ws.
Proof.
  induction ws as [|w ws IH]; [done|]. intros _ Hall. inversion Hall as [|? ? Hw Hws]; subst.
  destruct ws as [|w' ws]; [by apply split_space_free|].
  rewrite join_cons_cons, split_space_app_space by done. f_equal. by apply IH.
Qed.

Section MaskingFacts.
Variable str_lower : string → string.
Variable Float : Type.
Variable float_lt : Float → Float → bool.
Variable rand : nat → Float.
Variable mask_words_path : string → string.
Variable splitlines : string → list string.

(** The word loop draws once per word and keeps every word or replaces it
    by the mask token. *)
Lemma mask_word_loop_shape mask_token default special mask_word_list words drawn :
  ∃ masked_words,
    mask_word_loop str_lower Float float_lt rand mask_token default special mask_word_list
                   words drawn = (masked_words, drawn + length words) ∧
    Forall2 (fun word masked => masked = mask_token ∨ masked = word) words masked_words.
Proof.
  revert drawn. induction words as [|word rest IH]; intros drawn; simpl.
  - exists []. by rewrite Nat.add_0_r.
  - destruct (IH (S drawn)) as (others & -> & Hall).
    eexists. split; [f_equal; lia|]. constructor; [|done].
    destruct (float_lt _ _); auto.
Qed.

Lemma mask_word_loop_no_hit mask_token default special mask_word_list words drawn :
  (∀ k, drawn ≤ k < drawn + length words →
        float_lt (rand k) default = false ∧ float_lt (rand k) special = false) →
  mask_word_loop str_lower Float float_lt rand mask_token default special mask_word_list
                 words drawn = (words, drawn + length words).
Proof.
  revert drawn. induction words as [|word rest IH]; intros drawn Hno; simpl.
  - by rewrite Nat.add_0_r.
  - rewrite IH by (intros k Hk; apply Hno; simpl; lia).
    destruct (Hno drawn) as [Hd Hs]; [simpl; lia|].
    assert (float_lt (rand drawn)
              (if bool_decide (str_lower word ∈ mask_word_list) then special else default)
            = false) as -> by (by destruct (bool_decide _)).
    f_equal. lia.
Qed.

Lemma mask_word_loop_all_hit mask_token default special mask_word_list words drawn :
  (∀ k, drawn ≤ k < drawn + length words →
        float_lt (rand k) default = true ∧ float_lt (rand k) special = true) →
  mask_word_loop str_lower Float float_lt rand mask_token default special mask_word_list
                 words drawn = (replicate (length words) mask_token, drawn + length words).
Proof.
  revert drawn. induction words as [|word rest IH]; intros drawn Hall; simpl.
  - by rewrite Nat.add_0_r.
  - rewrite IH by (intros k Hk; apply Hall; simpl; lia).
    destruct (Hall drawn) as [Hd Hs]; [simpl; lia|].
    assert (float_lt (rand drawn)
              (if bool_decide (str_lower word ∈ mask_word_list) then special else default)
            = true) as -> by (by destruct (bool_decide _)).
    f_equal. lia.
Qed.

(** X8. When no random draw is below either probability, the texts come
    back unchanged, one draw having been made per word. *)
Theorem masking_without_hit_is_identity texts mask_token lang default special
    mask_word_list files drawn :
  (∀ k, drawn ≤ k < drawn + word_count texts →
        float_lt (rand k) default = false ∧ float_lt (rand k) special = false) →
  mask_texts str_lower Float float_lt rand mask_words_path splitlines
             texts mask_token lang default special (Some mask_word_list) files drawn
    = (Ok texts, drawn + word_count texts).
Proof.
  unfold mask_texts.
  assert (∀ texts drawn,
            (∀ k, drawn ≤ k < drawn + word_count texts →
                  float_lt (rand k) default = false ∧ float_lt (rand k) special = false) →
            apply_mask_words str_lower Float float_lt rand mask_token default special
                             mask_word_list texts drawn
              = (texts, drawn + word_count texts)) as Hloop.
  { clear. intros texts. induction texts as [|text rest IH]; intros drawn Hno.
    - simpl. unfold word_count. simpl. by rewrite Nat.add_0_r.
    - unfold word_count in *. simpl in *. unfold mask_words.
      rewrite mask_word_loop_no_hit by (intros k Hk; apply Hno; lia).
      rewrite join_split_space.
      rewrite IH by (intros k Hk; apply Hno; lia). f_equal. lia. }
  intros Hno. by rewrite Hloop.
Qed.

(** X9. When every random draw is below both probabilities, every word of
    every text is replaced by the mask token: a text of [n] words becomes
    [n] mask tokens joined by spaces. *)
Theorem masking_with_all_hits texts mask_token lang default special
    mask_word_list files drawn :
  (∀ k, drawn ≤ k < drawn + word_count texts →
        float_lt (rand k) default = true ∧ float_lt (rand k) special = true) →
  mask_texts str_lower Float float_lt rand mask_words_path splitlines
             texts mask_token lang default special (Some mask_word_list) files drawn
    = (Ok (map (fun text => join " " (replicate (length (split_space text)) mask_token)) texts),
       drawn + word_count texts).
Proof.
  unfold mask_texts.
  assert (∀ texts drawn,
            (∀ k, drawn ≤ k < drawn + word_count texts →
                  float_lt (rand k) default = true ∧ float_lt (rand k) special = true) →
            apply_mask_words str_lower Float float_lt rand mask_token default special
                             mask_word_list texts drawn
              = (map (fun text => join " " (replicate (length (split_space text)) mask_token))
                     texts,
                 drawn + word_count texts)) as Hloop.
  { clear. intros texts. induction texts as [|text rest IH]; intros drawn Hall.
    - simpl. unfold word_count. simpl. by rewrite Nat.add_0_r.
    - unfold word_count in *. simpl in *. unfold mask_words.
      rewrite mask_word_loop_all_hit by (intros k Hk; apply Hall; lia).
      rewrite IH by (intros k Hk; apply Hall; lia). f_equal. lia. }
  intros Hall. by rewrite Hloop.
Qed.

(** X10. With a mask token that holds no space, masking keeps the words in
    their places: each result text splits into as many words as its source
    text, and each word is the source word or the mask token.  One draw is
    made per word, whatever the draws are. *)
Theorem masking_keeps_word_positions texts mask_token lang default special
    mask_word_list files drawn :
  space_free mask_token = true →
  ∃ masked_texts,
    mask_texts str_lower Float float_lt rand mask_words_path splitlines
               texts mask_token lang default special (Some mask_word_list) files drawn
      = (Ok masked_texts, drawn + word_count texts) ∧
    Forall2 (fun text masked_text =>
               Forall2 (fun word masked => masked = mask_token ∨ masked = word)
                       (split_space text) (split_space masked_text))
            texts masked_texts.
Proof.
  intros Htoken. unfold mask_texts.
  assert (∀ texts drawn, ∃ masked_texts,
            apply_mask_words str_lower Float float_lt rand mask_token default special
                             mask_word_list texts drawn
              = (masked_texts, drawn + word_count texts) ∧
            Forall2 (fun text masked_text =>
                       Forall2 (fun word masked => masked = mask_token ∨ masked = word)
                               (split_space text) (split_space masked_text))
                    texts masked_texts) as Hloop.
  { clear -Htoken. intros texts. induction texts as [|text rest IH]; intros drawn.
    - exists []. simpl. unfold word_count. simpl. by rewrite Nat.add_0_r.
    - unfold word_count in *. simpl. unfold mask_words.
      destruct (mask_word_loop_shape mask_token default special mask_word_list
                  (split_space text) drawn) as (masked_words & -> & Hwords).
      destruct (IH (drawn + length (split_space text))) as (others & -> & Hothers).
      eexists. split; [f_equal; lia|]. constructor; [|done].
      rewrite split_space_join; [done| |].
      + intros ->. apply Forall2_nil_inv_r in Hwords. by apply split_space_not_nil in Hwords.
      + pose proof (split_space_space_free text) as Hfree.
        clear -Hwords Hfree Htoken. induction Hwords as [|w m ws ms Hm _ IH]; [done|].
        inversion Hfree; subst. constructor; [|by apply IH].
        by destruct Hm as [-> | ->]. }
  destruct (Hloop texts drawn) as (masked_texts & -> & Hall). by exists masked_texts.
Qed.

End MaskingFacts.

(** ** Properties of the class labels of the classifier wrapper *)

Lemma dict_of_snoc {K V} `{Countable K} (pairs : list (K * V)) k v :
  dict_of (pairs ++ [(k, v)]) = <[k := v]> (dict_of pairs).
Proof. unfold dict_of. by rewrite foldl_app. Qed.

Lemma enumerate_snoc {A} (l : list A) x :
  enumerate (l ++ [x]) = enumerate l ++ [(length l, x)].
Proof. unfold enumerate. rewrite imap_app. simpl. by rewrite Nat.add_0_r. Qed.

(** The index dictionary reads the class list by position. *)
Lemma ix2label_lookup (class_labels : list string) ix :
  dict_of (enumerate class_labels) !! ix = class_labels !! ix.
Proof.
  induction class_labels as [|x l IH] using rev_ind; [done|].
  rewrite enumerate_snoc, dict_of_snoc.
  destruct (decide (ix = length l)) as [->|Hne].
  - rewrite lookup_insert_eq. by rewrite list_lookup_middle.
  - rewrite lookup_insert_ne by done. rewrite IH.
    destruct (decide (ix < length l)) as [Hlt|Hge].
    + by rewrite lookup_app_l.
    + rewrite (lookup_ge_None_2 l) by lia.
      symmetry. apply lookup_ge_None_2. rewrite length_app. simpl. lia.
Qed.

(** A label has an index exactly when it is a class label. *)
Lemma label2ix_is_Some (class_labels : list string) l :
  is_Some (dict_of (map (fun p : nat * string => (p.2, p.1)) (enumerate class_labels)) !! l)
  ↔ l ∈ class_labels.
Proof.
  induction class_labels as [|x cl IH] using rev_ind.
  - unfold dict_of, enumerate. simpl. rewrite lookup_empty.
    split; [by intros [? ?]|by intros ?%elem_of_nil].
  - rewrite enumerate_snoc, map_app. simpl. rewrite dict_of_snoc, elem_of_app.
    rewrite list_elem_of_singleton. destruct (decide (l = x)) as [->|Hne].
    + rewrite lookup_insert_eq. split; [by right|by eexists].
    + rewrite lookup_insert_ne by done. rewrite IH. split; [by left|by intros [|]].
Qed.

(** For distinct class labels the label dictionary is the inverse of the
    class list. *)
Lemma label2ix_lookup (class_labels : list string) l ix :
  NoDup class_labels →
  dict_of (map (fun p : nat * string => (p.2, p.1)) (enumerate class_labels)) !! l = Some ix
  ↔ class_labels !! ix = Some l.
Proof.
  induction class_labels as [|x cl IH] using rev_ind; intros Hnd.
  - unfold dict_of, enumerate. simpl. by rewrite lookup_empty, lookup_nil.
  - apply NoDup_app in Hnd as (Hcl & Hx & _).
    rewrite enumerate_snoc, map_app. simpl. rewrite dict_of_snoc.
    destruct (decide (l = x)) as [->|Hne].
    + rewrite lookup_insert_eq. split.
      * intros [= <-]. by rewrite list_lookup_middle.
      * intros Hlook. f_equal.
        destruct (decide (ix < length cl)) as [Hlt|Hge].
        { rewrite lookup_app_l in Hlook by done.
          exfalso. eapply Hx; [by eapply list_elem_of_lookup_2|]. apply list_elem_of_here. }
        apply lookup_lt_Some in Hlook. rewrite length_app in Hlook. simpl in Hlook. lia.
    + rewrite lookup_insert_ne by done. rewrite (IH Hcl). split.
      * intros Hlook. rewrite lookup_app_l; [done|]. by eapply lookup_lt_Some.
      * intros Hlook. destruct (decide (ix < length cl)) as [Hlt|Hge].
        { by rewrite lookup_app_l in Hlook. }
        rewrite lookup_app_r in Hlook by lia.
        destruct (ix - length cl) as [|n]; simpl in Hlook; [congruence|done].
Qed.

Lemma remove_dups_length_le (l : list string) : length (remove_dups l) ≤ length l.
Proof. induction l as [|x l IH]; simpl; [done|]. case_decide; simpl; lia. Qed.

Lemma remove_dups_length_NoDup (l : list string) :
  length (remove_dups l) = length l ↔ NoDup l.
Proof.
  split.
  - induction l as [|x l IH]; simpl; [constructor|].
    pose proof (remove_dups_length_le l) as Hle.
    case_decide as Hin; simpl; intros Hlen; [lia|].
    constructor; [done|]. apply IH. lia.
  - induction 1 as [|x l Hx _ IH]; simpl; [done|].
    case_decide; [done|]. simpl. by rewrite IH.
Qed.

Lemma sorted_set_spec labels :
  Sorted string_le (sorted_set labels) ∧
  NoDup (sorted_set labels) ∧
  (∀ l, l ∈ sorted_set labels ↔ l ∈ labels) ∧
  length (sorted_set labels) = length (remove_dups labels).
Proof.
  unfold sorted_set. split_and!.
  - apply Sorted_merge_sort. apply _.
  - rewrite merge_sort_Permutation. apply NoDup_remove_dups.
  - intros l. rewrite merge_sort_Permutation. apply elem_of_remove_dups.
  - by rewrite merge_sort_Permutation.
Qed.

(** X11. Without given string labels the class labels are the distinct
    training labels in ascending order: the list is sorted, has no
    duplicate, holds exactly the labels of the training list, and its
    length is the number of classes. *)
Theorem induced_classes_are_sorted_distinct labels :
  Sorted string_le (_class_labels (_init_classes None labels)) ∧
  NoDup (_class_labels (_init_classes None labels)) ∧
  (∀ l, l ∈ _class_labels (_init_classes None labels) ↔ l ∈ labels) ∧
  _num_classes (_init_classes None labels) = length (remove_dups labels).
Proof. apply sorted_set_spec. Qed.

Lemma labels_round_trip_NoDup str_labels labels (sub : list string) :
  NoDup (_class_labels (_init_classes str_labels labels)) →
  (∀ l, l ∈ sub → l ∈ _class_labels (_init_classes str_labels labels)) →
  ∃ ixs,
    _labels2indices (_init_classes str_labels labels) sub = Returned ixs ∧
    Forall2 (fun l ix => _class_labels (_init_classes str_labels labels) !! ix = Some l)
            sub ixs ∧
    _indices2labels (_init_classes str_labels labels) ixs = Returned sub.
Proof.
  intros Hnd. induction sub as [|l rest IH]; intros Hin.
  - by exists [].
  - destruct IH as (ixs & Hto & Hpos & Hback).
    { intros l' Hl'. apply Hin. by apply list_elem_of_further. }
    assert (l ∈ _class_labels (_init_classes str_labels labels)) as Hl
      by (apply Hin, list_elem_of_here).
    apply label2ix_is_Some in Hl as [ix Hix].
    pose proof Hix as Hix'. apply label2ix_lookup in Hix'; [|done].
    exists (ix :: ixs). simpl. simpl in Hix. rewrite Hix, Hto. split; [done|].
    split; [by constructor|].
    rewrite ix2label_lookup. simpl in Hix'. by rewrite Hix', Hback.
Qed.

Lemma positions_below_length (class_labels ls : list string) (ixs : list nat) :
  Forall2 (fun l ix => class_labels !! ix = Some l) ls ixs →
  Forall (fun ix => ix < length class_labels) ixs.
Proof.
  induction 1 as [|l ix ls ixs Hl _ IH]; constructor; [|done].
  by apply lookup_lt_Some in Hl.
Qed.

(** X12. With induced classes the training labels are encoded without
    loss: every label gets the index of its place in the class list, below
    the number of classes, and decoding the indices returns the labels. *)
Theorem training_labels_round_trip labels :
  ∃ ixs,
    _labels2indices (_init_classes None labels) labels = Returned ixs ∧
    Forall (fun ix => ix < _num_classes (_init_classes None labels)) ixs ∧
    Forall2 (fun l ix => _class_labels (_init_classes None labels) !! ix = Some l) labels ixs ∧
    _indices2labels (_init_classes None labels) ixs = Returned labels.
Proof.
  destruct (sorted_set_spec labels) as (_ & Hnd & Hin & _).
  destruct (labels_round_trip_NoDup None labels labels Hnd) as (ixs & Hto & Hpos & Hback).
  { intros l Hl. by apply Hin. }
  exists ixs. split_and!; try done.
  change (_num_classes (_init_classes None labels))
    with (length (_class_labels (_init_classes None labels))).
  by eapply positions_below_length.
Qed.

(** X13. [set_string_labels] accepts a list exactly when its labels are
    distinct and keeps it as it is; a list with a repeated label fails the
    assertion. *)
Theorem string_labels_must_be_distinct labels :
  (NoDup labels → set_string_labels labels = Returned labels) ∧
  (¬ NoDup labels → set_string_labels labels = Raised AssertionError).
Proof.
  unfold set_string_labels. split; intros H.
  - apply remove_dups_length_NoDup in H. rewrite H. by rewrite Nat.eqb_refl.
  - destruct (Nat.eqb_spec (length labels) (length (remove_dups labels))) as [Heq|]; [|done].
    exfalso. apply H. by apply remove_dups_length_NoDup.
Qed.

(** X14. With string labels accepted by [set_string_labels], a label is
    encoded as its position in the given list, whatever the training
    labels are, and training labels that all occur in the given list are
    encoded and decoded without loss. *)
Theorem given_labels_fix_the_indices given accepted labels :
  set_string_labels given = Returned accepted →
  (∀ l, l ∈ labels → l ∈ given) →
  ∃ ixs,
    _labels2indices (_init_classes (Some accepted) labels) labels = Returned ixs ∧
    Forall2 (fun l ix => given !! ix = Some l) labels ixs ∧
    _indices2labels (_init_classes (Some accepted) labels) ixs = Returned labels.
Proof.
  intros Hset Hin.
  assert (accepted = given ∧ NoDup given) as [-> Hnd].
  { unfold set_string_labels in Hset.
    destruct (Nat.eqb_spec (length given) (length (remove_dups given))) as [Heq|]; [|done].
    injection Hset as <-. split; [done|]. by apply remove_dups_length_NoDup. }
  by apply (labels_round_trip_NoDup (Some given) labels labels).
Qed.

(** X15. Encoding raises [KeyError] for the first label, in list order,
    that is not a class label, also when later labels are known. *)
Theorem unknown_label_raises_key_error str_labels labels known unknown rest :
  (∀ l, l ∈ known → l ∈ _class_labels (_init_classes str_labels labels)) →
  unknown ∉ _class_labels (_init_classes str_labels labels) →
  _labels2indices (_init_classes str_labels labels) (known ++ unknown :: rest)
    = Raised (KeyError unknown).
Proof.
  intros Hknown Hunknown. induction known as [|l known IH]; simpl.
  - destruct (dict_of _ !! unknown) as [ix|] eqn:E; [|done].
    exfalso. apply Hunknown. apply label2ix_is_Some. simpl. by rewrite E.
  - assert (l ∈ _class_labels (_init_classes str_labels labels)) as Hl
      by (apply Hknown, list_elem_of_here).
    apply label2ix_is_Some in Hl as [ix Hix]. simpl in Hix. rewrite Hix.
    simpl in IH. rewrite IH; [done|]. intros l' Hl'. apply Hknown. by apply list_elem_of_further.
Qed.

(** X16. Every index below the number of classes decodes to a class label,
    and when the class labels are distinct that label encodes back to the
    index; an index at or above the number of classes raises [KeyError]. *)
Theorem indices_decode_within_range str_labels labels ix :
  (ix < _num_classes (_init_classes str_labels labels) →
   ∃ l, _indices2labels (_init_classes str_labels labels) [ix] = Returned [l] ∧
        (NoDup (_class_labels (_init_classes str_labels labels)) →
         _labels2indices (_init_classes str_labels labels) [l] = Returned [ix])) ∧
  (_num_classes (_init_classes str_labels labels) ≤ ix →
   _indices2labels (_init_classes str_labels labels) [ix] = Raised (KeyErrorIndex ix)).
Proof.
  split; intros Hix; simpl in *.
  - destruct (lookup_lt_is_Some_2 _ _ Hix) as [l Hl].
    exists l. rewrite ix2label_lookup, Hl. split; [done|]. intros Hnd.
    apply (label2ix_lookup _ l ix Hnd) in Hl. by rewrite Hl.
  - by rewrite ix2label_lookup, lookup_ge_None_2.
Qed.

(** ** Properties of the classification view *)

Section ClassificationFacts.
Context (env : Environment).
Variable field : Dict env → string → option string.
Variable BINARY_MAPPING_CONSPIRACY_POS : gmap string Z.
Variable BINARY_MAPPING_CRITICAL_POS : gmap string Z.
Implicit Types fs : gmap string (list (Dict env)).

(** The loader reads only, for every list of entries. *)
Lemma load_dataset_full_pure dest_lang src_langs fs :
  ∃ r, load_dataset_full env dest_lang src_langs fs = (fs, [], r).
Proof.
  destruct (decide ([] ∈ src_langs ∧ dest_lang ≠ "en" ∧ dest_lang ≠ "es"))
    as [(Hin & Hen & Hes)|Hknown].
  - eexists. by apply load_dataset_full_unknown.
  - assert (language_known dest_lang src_langs) as Hk.
    { intros Hin. destruct (decide (dest_lang = "en")) as [|Hen]; [by left|].
      destruct (decide (dest_lang = "es")) as [|Hes]; [by right|].
      by destruct Hknown. }
    unfold load_dataset_full.
    rewrite (bind_pure_ok _ _ fs _ (collect_file_names_known env dest_lang src_langs fs Hk)).
    apply read_files_pure.
Qed.

Lemma column_rows key dataset values :
  column env field key dataset = Returned values →
  Forall2 (fun doc value => field doc key = Some value) dataset values.
Proof.
  revert values. induction dataset as [|doc rest IH]; intros values; simpl.
  - intros [= <-]. constructor.
  - destruct (field doc key) as [value|] eqn:Hdoc; [|done].
    destruct (column env field key rest) as [vs|e]; [|done].
    intros [= <-]. constructor; [done|]. by apply IH.
Qed.

Lemma column_present key dataset :
  Forall (fun doc => is_Some (field doc key)) dataset →
  ∃ values, column env field key dataset = Returned values.
Proof.
  induction 1 as [|doc rest [value Hdoc] _ [values IH]]; simpl; [by eexists|].
  rewrite Hdoc, IH. by eexists.
Qed.

Lemma column_missing key before doc after :
  Forall (fun d => is_Some (field d key)) before →
  field doc key = None →
  column env field key (before ++ doc :: after) = Raised (KeyError key).
Proof.
  intros Hbefore Hdoc.
  induction Hbefore as [|d before [value Hd] _ IH]; simpl.
  - by rewrite Hdoc.
  - by rewrite Hd, IH.
Qed.

Lemma binary_column_rows binmap dataset codes :
  binary_column env field binmap dataset = Returned codes →
  Forall2 (fun doc code => ∃ category,
             field doc "category" = Some category ∧ binmap !! category = Some code)
          dataset codes.
Proof.
  revert codes. induction dataset as [|doc rest IH]; intros codes; simpl.
  - intros [= <-]. constructor.
  - destruct (field doc "category") as [category|] eqn:Hdoc; [|done].
    destruct (binmap !! category) as [code|] eqn:Hcode; [|done].
    destruct (binary_column env field binmap rest) as [cs|e]; [|done].
    intros [= <-]. constructor; [by exists category|]. by apply IH.
Qed.

Lemma binary_column_unmapped binmap before doc after category :
  Forall (fun d => ∃ c code, field d "category" = Some c ∧ binmap !! c = Some code) before →
  field doc "category" = Some category → binmap !! category = None →
  binary_column env field binmap (before ++ doc :: after) = Raised (KeyError category).
Proof.
  intros Hbefore Hdoc Hcode.
  induction Hbefore as [|d before (c & code & Hd & Hc) _ IH]; simpl.
  - by rewrite Hdoc, Hcode.
  - by rewrite Hd, Hc, IH.
Qed.

(** X17. When the classification view is returned, the three columns are
    aligned with the loaded documents: row [i] holds the text, the id and
    the class of document [i], the class being the document's category
    itself for string labels and its code in the mapping of the positive
    class for binary labels.  The files are left as they were. *)
Theorem classification_rows_are_aligned lang src_langs string_labels positive_class
    fs fs' t texts classes ids :
  load_dataset_classification env field BINARY_MAPPING_CONSPIRACY_POS
    BINARY_MAPPING_CRITICAL_POS lang src_langs string_labels positive_class fs
    = (fs', t, Returned (texts, classes, ids)) →
  fs' = fs ∧ t = [] ∧
  ∃ dataset,
    load_dataset_full env lang src_langs fs = (fs, [], Ok dataset) ∧
    Forall2 (fun doc value => field doc "text" = Some value) dataset texts ∧
    Forall2 (fun doc value => field doc "id" = Some value) dataset ids ∧
    match classes with
    | StringLabels labels =>
        string_labels = true ∧
        Forall2 (fun doc value => field doc "category" = Some value) dataset labels
    | BinaryLabels codes =>
        string_labels = false ∧
        ∃ binmap,
          (positive_class = "conspiracy" ∧ binmap = BINARY_MAPPING_CONSPIRACY_POS ∨
           positive_class = "critical" ∧ binmap = BINARY_MAPPING_CRITICAL_POS) ∧
          Forall2 (fun doc code => ∃ category,
                     field doc "category" = Some category ∧ binmap !! category = Some code)
                  dataset codes
    end.
Proof.
  unfold load_dataset_classification.
  destruct (load_dataset_full_pure lang src_langs fs) as [r Hload]. rewrite Hload.
  destruct r as [dataset|e]; [|done]. unfold classification_columns.
  destruct (column env field "text" dataset) as [texts'|e] eqn:Htexts; [|done].
  destruct string_labels.
  - destruct (column env field "category" dataset) as [labels|e] eqn:Hcat; [|done].
    destruct (column env field "id" dataset) as [ids'|e] eqn:Hids; [|done].
    intros [= <- <- <- <- <-]. split_and!; try done. exists dataset.
    split_and!; try done; by apply column_rows.
  - destruct (String.eqb_spec positive_class "conspiracy") as [Hpc|_].
    + destruct (binary_column env field BINARY_MAPPING_CONSPIRACY_POS dataset)
        as [codes|e] eqn:Hcodes; [|done].
      destruct (column env field "id" dataset) as [ids'|e] eqn:Hids; [|done].
      intros [= <- <- <- <- <-]. split_and!; try done. exists dataset.
      split_and!; try done; try by apply column_rows.
      exists BINARY_MAPPING_CONSPIRACY_POS. split; [by left|]. by apply binary_column_rows.
    + destruct (String.eqb_spec positive_class "critical") as [Hpc|_]; [|done].
      destruct (binary_column env field BINARY_MAPPING_CRITICAL_POS dataset)
        as [codes|e] eqn:Hcodes; [|done].
      destruct (column env field "id" dataset) as [ids'|e] eqn:Hids; [|done].
      intros [= <- <- <- <- <-]. split_and!; try done. exists dataset.
      split_and!; try done; try by apply column_rows.
      exists BINARY_MAPPING_CRITICAL_POS. split; [by right|]. by apply binary_column_rows.
Qed.

(** X18. The positive class is checked for binary labels only, after the
    texts were read and before any category is looked at.  For a positive
    class other than 'conspiracy' and 'critical' and binary labels: when
    every document has a text, the call raises the unknown-class error
    whatever the documents' categories are (also for an empty dataset, and
    also when a document has no category or an unmapped one); when some
    document has no 'text' key, the call raises [KeyError] for 'text' at
    the first such document and the unknown-class error is not reached;
    and one of the two errors is raised, the call returns no columns.
    With string labels the same call behaves as with a valid positive
    class. *)
Theorem positive_class_checked_for_binary_only lang src_langs positive_class fs dataset :
  positive_class ≠ "conspiracy" → positive_class ≠ "critical" →
  load_dataset_full env lang src_langs fs = (fs, [], Ok dataset) →
  (Forall (fun doc => is_Some (field doc "text")) dataset →
   load_dataset_classification env field BINARY_MAPPING_CONSPIRACY_POS
     BINARY_MAPPING_CRITICAL_POS lang src_langs false positive_class fs
     = (fs, [], Raised (Builtin (ValueError ("Unknown positive class: " +:+ positive_class))))) ∧
  (∀ before doc after,
     dataset = before ++ doc :: after →
     Forall (fun d => is_Some (field d "text")) before →
     field doc "text" = None →
     load_dataset_classification env field BINARY_MAPPING_CONSPIRACY_POS
       BINARY_MAPPING_CRITICAL_POS lang src_langs false positive_class fs
       = (fs, [], Raised (KeyError "text"))) ∧
  (load_dataset_classification env field BINARY_MAPPING_CONSPIRACY_POS
     BINARY_MAPPING_CRITICAL_POS lang src_langs false positive_class fs
     = (fs, [], Raised (Builtin (ValueError ("Unknown positive class: " +:+ positive_class))))
   ∨ load_dataset_classification env field BINARY_MAPPING_CONSPIRACY_POS
       BINARY_MAPPING_CRITICAL_POS lang src_langs false positive_class fs
     = (fs, [], Raised (KeyError "text"))) ∧
  load_dataset_classification env field BINARY_MAPPING_CONSPIRACY_POS
    BINARY_MAPPING_CRITICAL_POS lang src_langs true positive_class fs
    = load_dataset_classification env field BINARY_MAPPING_CONSPIRACY_POS
        BINARY_MAPPING_CRITICAL_POS lang src_langs true "conspiracy" fs.
Proof.
  intros Hne1 Hne2 Hload. unfold load_dataset_classification. rewrite Hload.
  assert (∀ texts, column env field "text" dataset = Returned texts →
            classification_columns env field BINARY_MAPPING_CONSPIRACY_POS
              BINARY_MAPPING_CRITICAL_POS dataset false positive_class
            = Raised (Builtin (ValueError ("Unknown positive class: " +:+ positive_class))))
    as Hcheck.
  { intros texts Htexts. unfold classification_columns. rewrite Htexts.
    destruct (String.eqb_spec positive_class "conspiracy") as [|_]; [done|].
    by destruct (String.eqb_spec positive_class "critical") as [|_]. }
  assert (∀ e, column env field "text" dataset = Raised e → e = KeyError "text") as Hkey.
  { clear. induction dataset as [|doc rest IH]; intros e; simpl; [done|].
    destruct (field doc "text") as [value|]; [|by intros [= <-]].
    destruct (column env field "text" rest) as [vs|e'] eqn:Hrest; [done|].
    intros [= <-]. by apply IH. }
  split_and!; [| | |done].
  - intros Htexts. destruct (column_present "text" dataset Htexts) as [texts Hcol].
    by rewrite (Hcheck texts Hcol).
  - intros before doc after -> Hbefore Hdoc. unfold classification_columns.
    by rewrite (column_missing "text" before doc after Hbefore Hdoc).
  - destruct (column env field "text" dataset) as [texts|e] eqn:Hcol.
    + left. by rewrite (Hcheck texts eq_refl).
    + right. unfold classification_columns. rewrite Hcol.
      by rewrite (Hkey e eq_refl).
Qed.

(** X19. With binary labels, the first document whose category is not a
    key of the mapping of the positive class makes the call raise
    [KeyError] for that category: the document is not skipped. *)
Theorem unmapped_category_raises_key_error lang src_langs positive_class binmap fs
    before doc after category :
  (positive_class = "conspiracy" ∧ binmap = BINARY_MAPPING_CONSPIRACY_POS ∨
   positive_class = "critical" ∧ binmap = BINARY_MAPPING_CRITICAL_POS) →
  load_dataset_full env lang src_langs fs = (fs, [], Ok (before ++ doc :: after)) →
  Forall (fun d => is_Some (field d "text")) (before ++ doc :: after) →
  Forall (fun d => ∃ c code, field d "category" = Some c ∧ binmap !! c = Some code) before →
  field doc "category" = Some category → binmap !! category = None →
  load_dataset_classification env field BINARY_MAPPING_CONSPIRACY_POS
    BINARY_MAPPING_CRITICAL_POS lang src_langs false positive_class fs
    = (fs, [], Raised (KeyError category)).
Proof.
  intros Hpc Hload Htexts Hbefore Hdoc Hcode.
  unfold load_dataset_classification. rewrite Hload. unfold classification_columns.
  destruct (column_present "text" _ Htexts) as [texts ->].
  destruct Hpc as [[-> ->]|[-> ->]]; simpl;
    by rewrite (binary_column_unmapped _ before doc after category Hbefore Hdoc Hcode).
Qed.

(** X20. For a dataset made of one translated file, the texts and ids of
    the classification view are those [load_texts_and_ids_from_json]
    returns for that file. *)
Theorem texts_and_ids_agree lang first others string_labels positive_class
    fs fs' t texts classes ids :
  load_dataset_classification env field BINARY_MAPPING_CONSPIRACY_POS
    BINARY_MAPPING_CRITICAL_POS lang [first :: others] string_labels positive_class fs
    = (fs', t, Returned (texts, classes, ids)) →
  load_texts_and_ids_from_json env field (translation_path env first lang others) fs
    = (fs, [], Returned (texts, ids)).
Proof.
  unfold load_dataset_classification, load_texts_and_ids_from_json.
  rewrite load_dataset_full_run. unfold read_json.
  destruct (fs !! translation_path env first lang others) as [content|]; [|done].
  unfold classification_columns.
  destruct (column env field "text" content) as [texts'|e]; [|done].
  destruct (column env field "id" content) as [ids'|e] eqn:Hids.
  - destruct string_labels.
    + destruct (column env field "category" content); [|done]. by intros [= _ _ <- _ <-].
    + destruct (String.eqb positive_class "conspiracy").
      { destruct (binary_column _ _ _ content); [|done]. by intros [= _ _ <- _ <-]. }
      destruct (String.eqb positive_class "critical"); [|done].
      destruct (binary_column _ _ _ content); [|done]. by intros [= _ _ <- _ <-].
  - destruct string_labels.
    + by destruct (column env field "category" content).
    + destruct (String.eqb positive_class "conspiracy").
      { by destruct (binary_column _ _ _ content). }
      destruct (String.eqb positive_class "critical"); [|done].
      by destruct (binary_column _ _ _ content).
Qed.

End ClassificationFacts.

(** ** A cached prefix stands for the hops that produced it *)

Section CacheTransparency.
Context (env : Environment).
Implicit Types fs : gmap string (list (Dict env)).
Implicit Types chain : list string.

(** A completed loop over two lists of hops is the loop over the first
    followed by the loop over the second. *)
Lemma translate_hops_split chain device l1 l2 ds fs fs' t d :
  translate_hops env chain device (l1 ++ l2) ds fs = (fs', t, Ok d) →
  ∃ fs1 t1 d1 t2,
    translate_hops env chain device l1 ds fs = (fs1, t1, Ok d1) ∧
    translate_hops env chain device l2 d1 fs1 = (fs', t2, Ok d) ∧
    t = t1 ++ t2.
Proof.
  revert ds fs fs' t. induction l1 as [|i l1 IH]; intros ds fs fs' t; simpl.
  - intros Hrun. by exists fs, [], ds, t.
  - rewrite !bind_run.
    destruct (translate_hop env chain device i ds fs) as [[fsi ti] [dsi|e]]; [|done].
    destruct (translate_hops env chain device (l1 ++ l2) dsi fsi) as [[fs2 u] r] eqn:Hrest.
    intros [= <- <- ->]. apply IH in Hrest as (fs1 & t1 & d1 & t2 & H1 & H2 & ->).
    exists fs1, (ti ++ t1), d1, t2. rewrite H1. split_and!; try done. by rewrite app_assoc.
Qed.

Lemma take_le_eq {A} n m (l1 l2 : list A) :
  n ≤ m → take m l1 = take m l2 → take n l1 = take n l2.
Proof.
  intros Hle Htake.
  rewrite <- (Nat.min_l n m Hle), <- !take_take. by rewrite Htake.
Qed.

(** The element loop depends on the chain through the new ids only. *)
Lemma translate_elements_ext chain1 chain2 i tokenizer model ds fs :
  take (i + 2) chain1 = take (i + 2) chain2 →
  translate_elements env chain1 i tokenizer model ds fs =
  translate_elements env chain2 i tokenizer model ds fs.
Proof.
  intros Htake. induction ds as [|e rest IH]; simpl; [done|].
  rewrite !bind_run.
  destruct (_translate_text_pure env (text e) tokenizer model fs) as [r ->].
  destruct r as [x|err]; [|done].
  rewrite !bind_run, IH. unfold hop_id. by rewrite Htake.
Qed.

(** A hop depends on the chain up to its destination language only. *)
Lemma translate_hop_ext chain1 chain2 device i ds fs :
  take (i + 2) chain1 = take (i + 2) chain2 →
  translate_hop env chain1 device i ds fs = translate_hop env chain2 device i ds fs.
Proof.
  intros Htake.
  assert (∀ j, j < i + 2 → chain1 !! j = chain2 !! j) as Hlook.
  { intros j Hj. rewrite <- (lookup_take_lt chain1 (i + 2) j) by done.
    rewrite Htake. by apply lookup_take_lt. }
  assert (slice 1 (i + 1) chain1 = slice 1 (i + 1) chain2) as Hslice.
  { unfold slice. rewrite !take_drop_commute. f_equal.
    apply (take_le_eq _ (i + 2)); [lia|done]. }
  unfold translate_hop. rewrite !bind_run, !index_run.
  rewrite (Hlook i) by lia. destruct (chain2 !! i) as [s|]; [|done]. simpl.
  rewrite !bind_run, !index_run. rewrite (Hlook (i + 1)) by lia.
  destruct (chain2 !! (i + 1)) as [d|]; [|done]. simpl.
  rewrite !bind_run.
  destruct (_load_translation_model env s d device fs) as [[fs1 t1] [[model tokenizer]|err]];
    [|done].
  rewrite !bind_run, (translate_elements_ext chain1 chain2) by done.
  destruct (translate_elements env chain2 i tokenizer model ds fs1) as [[fs2 t2] [ds'|err]];
    [|done].
  rewrite !bind_run, !index_run. rewrite (Hlook 0) by lia. by rewrite Hslice.
Qed.

Lemma translate_hops_ext chain1 chain2 device idxs ds fs :
  (∀ i, i ∈ idxs → take (i + 2) chain1 = take (i + 2) chain2) →
  translate_hops env chain1 device idxs ds fs = translate_hops env chain2 device idxs ds fs.
Proof.
  revert ds fs. induction idxs as [|i rest IH]; intros ds fs Htake; simpl; [done|].
  rewrite !bind_run, (translate_hop_ext chain1 chain2) by (apply Htake, list_elem_of_here).
  destruct (translate_hop env chain2 device i ds fs) as [[fs1 t1] [ds1|err]]; [|done].
  rewrite IH; [done|]. intros j Hj. apply Htake. by apply list_elem_of_further.
Qed.

Lemma prefix_path_ext chain1 chain2 i :
  take (i + 1) chain1 = take (i + 1) chain2 →
  prefix_path env chain1 i = prefix_path env chain2 i.
Proof.
  intros Htake.
  assert (∀ j, j < i + 1 → chain1 !! j = chain2 !! j) as Hlook.
  { intros j Hj. rewrite <- (lookup_take_lt chain1 (i + 1) j) by done.
    rewrite Htake. by apply lookup_take_lt. }
  unfold prefix_path, slice. rewrite (Hlook 0), (Hlook i) by lia.
  rewrite !take_drop_commute. do 2 f_equal.
  apply (take_le_eq _ (i + 1)); [lia|done].
Qed.

(** With no prefix cached, a completed call ran every hop of the chain
    from the base dataset. *)
Lemma get_translated_dataset_from_scratch src dest trans fs fs' t d :
  ¬ degenerate src dest trans →
  (∀ i, 1 ≤ i < length (translation_langs src trans dest) →
        fs !! prefix_path env (translation_langs src trans dest) i = None) →
  get_translated_dataset env src dest trans fs = (fs', t, Ok d) →
  ∃ base,
    fs !! translation_path env src src [] = Some base ∧
    ¬ adjacent_duplicate (translation_langs src trans dest) ∧
    translate_hops env (translation_langs src trans dest) "cuda"
      (seq 0 (S (length trans))) (dataset_from_dict env base) fs = (fs', t, Ok d).
Proof.
  intros Hnd Hnone Hrun.
  assert (length (translation_langs src trans dest) = S (S (length trans))) as Hlen
    by (unfold translation_langs; simpl; rewrite length_app; simpl; lia).
  assert (fs !! translation_path env src dest trans = None) as Hfull.
  { rewrite <- prefix_path_full. apply Hnone. lia. }
  rewrite get_translated_dataset_miss in Hrun by done.
  destruct (_translate_dataset_ok_inv env _ _ _ _ _ _ _ _ Hnd Hrun) as [[base Hbase] Hvalid].
  destruct (find_cached_prefix_run env (translation_langs src trans dest) (S (length trans))
              (dataset_from_dict env base) fs) as (k & resume & Hscan & Hk & _ & Hzero & Hpos);
    [lia|].
  destruct (decide (k = 0)) as [->|Hk0].
  - rewrite Hzero in Hscan by done.
    rewrite (_translate_dataset_resume env _ _ _ _ _ base Hnd Hvalid Hbase 0 _ Hscan) in Hrun.
    exists base. by rewrite Nat.sub_0_r in Hrun.
  - destruct Hpos as (c & Hc & _); [lia|]. rewrite Hnone in Hc by lia. done.
Qed.

Lemma chain_prefix src mid dest before after :
  take (length before + 2) (translation_langs src (before ++ mid :: after) dest)
  = translation_langs src before mid.
Proof.
  unfold translation_langs.
  assert ([src] ++ (before ++ mid :: after) ++ [dest]
          = ([src] ++ before ++ [mid]) ++ (after ++ [dest])) as ->
    by (simpl; by rewrite <- !app_assoc).
  replace (length before + 2) with (length ([src] ++ before ++ [mid]))
    by (simpl; rewrite length_app; simpl; lia).
  apply take_app_length.
Qed.

(** X21. Starting with no cached prefix and with the prefix files of the
    chain at distinct paths, a completed request for a prefix of the chain
    followed by the request for the whole chain gives what the request
    for the whole chain gives directly: the same dataset and the same
    files.  The second request only runs the hops the first one left, and
    the two traces together are the trace of the direct request. *)
Theorem resumed_call_equals_direct_call src_lang mid_lang dest_lang before after
    fs fs1 t1 d1 fsD tD dD :
  (∀ ds, dataset_from_dict env (dataset_to_dict env ds) = ds) →
  (∀ i, 1 ≤ i < length (translation_langs src_lang (before ++ mid_lang :: after) dest_lang) →
        fs !! prefix_path env
                (translation_langs src_lang (before ++ mid_lang :: after) dest_lang) i
          = None) →
  (∀ i j, 1 ≤ j ≤ S (length before) →
          S (length before) < i
            < length (translation_langs src_lang (before ++ mid_lang :: after) dest_lang) →
          prefix_path env
            (translation_langs src_lang (before ++ mid_lang :: after) dest_lang) i
          ≠ prefix_path env
              (translation_langs src_lang (before ++ mid_lang :: after) dest_lang) j) →
  get_translated_dataset env src_lang mid_lang before fs = (fs1, t1, Ok d1) →
  get_translated_dataset env src_lang dest_lang (before ++ mid_lang :: after) fs
    = (fsD, tD, Ok dD) →
  ∃ t2,
    get_translated_dataset env src_lang dest_lang (before ++ mid_lang :: after) fs1
      = (fsD, t2, Ok dD) ∧
    tD = t1 ++ t2 ∧
    length (model_loads t2) = S (length after).
Proof.
  intros Hround Hnone Hdistinct Hfirst Hdirect.
  set (trans := before ++ mid_lang :: after) in *.
  set (c := translation_langs src_lang trans dest_lang) in *.
  set (c1 := translation_langs src_lang before mid_lang).
  set (m := S (length before)).
  assert (length trans = m + length after) as Hn
    by (unfold trans, m; rewrite length_app; simpl; lia).
  assert (length c = S (S (length trans))) as Hlen
    by (unfold c, translation_langs; simpl; rewrite length_app; simpl; lia).
  assert (take (m + 1) c = c1) as Hprefix
    by (unfold m; replace (S (length before) + 1) with (length before + 2) by lia;
        apply chain_prefix).
  assert (∀ i, i ≤ m → prefix_path env c1 i = prefix_path env c i) as Hpath.
  { intros i Hi. apply prefix_path_ext. rewrite <- Hprefix.
    rewrite take_take. f_equal. lia. }
  assert (¬ degenerate src_lang dest_lang trans) as Hnd
    by (intros [_ Hnil]; unfold trans in Hnil; by destruct before).
  (* the direct request runs every hop *)
  destruct (get_translated_dataset_from_scratch _ _ _ _ _ _ _ Hnd Hnone Hdirect)
    as (base & Hbase & Hvalid & HhopsD).
  (* so does the request for the prefix *)
  assert (¬ degenerate src_lang mid_lang before) as Hnd1.
  { intros [-> ->]. apply Hvalid. exists 0, mid_lang. by split. }
  assert (∀ i, 1 ≤ i < length c1 → fs !! prefix_path env c1 i = None) as Hnone1'.
  { intros i Hi.
    assert (length c1 = S m) as Hlen1
      by (unfold c1, translation_langs, m; simpl; rewrite length_app; simpl; lia).
    rewrite Hpath by lia. apply Hnone. lia. }
  destruct (get_translated_dataset_from_scratch _ _ _ _ _ _ _ Hnd1 Hnone1' Hfirst)
    as (base1 & Hbase1 & _ & Hhops1).
  rewrite Hbase in Hbase1. injection Hbase1 as <-. fold c1 in Hhops1. fold m in Hhops1.
  (* on these hops the prefix chain and the whole chain agree *)
  rewrite (translate_hops_ext c1 c) in Hhops1.
  2:{ intros i Hi. apply elem_of_seq in Hi. rewrite <- Hprefix, take_take. f_equal. lia. }
  (* split the direct run at the end of the prefix *)
  replace (seq 0 (S (length trans))) with (seq 0 m ++ seq m (S (length after))) in HhopsD
    by (rewrite Hn, <- seq_app; f_equal; lia).
  apply translate_hops_split in HhopsD as (fs1' & t1' & d1' & t2 & Ha & Hb & ->).
  pose proof (eq_trans (eq_sym Ha) Hhops1) as Heq. injection Heq as -> -> ->.
  fold c in Hb. clear Ha.
  exists t2. split; [|split; [done|]].
  2:{ apply translate_hops_ok in Hb as (_ & -> & _). by rewrite length_seq. }
  (* the second request misses the whole chain and finds the prefix *)
  assert (∀ i, m < i < length c → fs1 !! prefix_path env c i = None) as Hnone1.
  { intros i Hi. rewrite (translate_hops_frame env _ _ _ _ _ _ _ _ _ Hhops1);
      [apply Hnone; lia|].
    intros j Hj. apply elem_of_seq in Hj. apply Hdistinct; unfold m in *; lia. }
  assert (fs1 !! prefix_path env c m = Some (dataset_to_dict env d1)) as Hcached.
  { unfold m in Hhops1. rewrite seq_S in Hhops1. simpl in Hhops1.
    apply translate_hops_last in Hhops1 as [Hfile _].
    by rewrite Nat.add_1_r in Hfile. }
  assert (fs1 !! translation_path env src_lang dest_lang trans = None) as Hfull1.
  { rewrite <- prefix_path_full. apply Hnone1. lia. }
  rewrite get_translated_dataset_miss by done.
  assert (is_Some (fs1 !! translation_path env src_lang src_lang [])) as [base' Hbase'].
  { eapply translate_hops_keeps; [exact Hhops1|]. by rewrite Hbase. }
  destruct (find_cached_prefix_run env c (S (length trans)) (dataset_from_dict env base') fs1)
    as (k & resume & Hscan & Hk & Habs & _ & Hpos); [lia|].
  assert (k = m) as ->.
  { destruct (decide (k < m)) as [Hlt|Hge].
    - rewrite Habs in Hcached by lia. done.
    - destruct (decide (k = m)) as [|Hne]; [done|].
      destruct Hpos as (cached & Hc & _); [lia|]. rewrite Hnone1 in Hc by lia. done. }
  destruct Hpos as (cached & Hc & ->); [unfold m; lia|].
  rewrite Hcached in Hc. injection Hc as <-. rewrite Hround in Hscan.
  rewrite (_translate_dataset_resume env _ _ _ _ _ base' Hnd Hvalid Hbase' m d1 Hscan).
  fold c. replace (S (length trans) - m) with (S (length after)) by lia. exact Hb.
Qed.

End CacheTransparency.

(** ** The work of a call, and the classification view of its result *)

Section CallFacts.
Context (env : Environment).
Variable field : Dict env → string → option string.
Variable BINARY_MAPPING_CONSPIRACY_POS : gmap string Z.
Variable BINARY_MAPPING_CRITICAL_POS : gmap string Z.
Implicit Types fs : gmap string (list (Dict env)).

(** X22. A completed translating call that resumes at index [k] hands
    every element of the resume dataset to the engine once per remaining
    hop, and writes the cache files of the chain prefixes [k+1 .. end], in
    that order, and no other. *)
Theorem translation_work src_lang dest_lang transition_langs fs fs' t dataset
    base k resume :
  ¬ degenerate src_lang dest_lang transition_langs →
  fs !! translation_path env src_lang dest_lang transition_langs = None →
  fs !! translation_path env src_lang src_lang [] = Some base →
  find_cached_prefix env (translation_langs src_lang transition_langs dest_lang)
    (length (translation_langs src_lang transition_langs dest_lang) - 1)
    (dataset_from_dict env base) fs = (fs, [], Ok (k, resume)) →
  get_translated_dataset env src_lang dest_lang transition_langs fs = (fs', t, Ok dataset) →
  length (translated_texts t) =
    (length (translation_langs src_lang transition_langs dest_lang) - 1 - k) * length resume ∧
  file_writes t =
    map (fun i => prefix_path env (translation_langs src_lang transition_langs dest_lang) (i + 1))
        (seq k (length (translation_langs src_lang transition_langs dest_lang) - 1 - k)).
Proof.
  intros Hnd Hfull Hbase Hscan Hrun.
  rewrite get_translated_dataset_miss in Hrun by done.
  destruct (_translate_dataset_ok_hops env _ _ _ _ _ _ _ _ Hnd Hfull Hrun)
    as (base' & k' & resume' & Hbase' & Hscan' & Hk & Hhops).
  unfold translation_langs in Hscan. rewrite chain_last_index in Hscan.
  fold (translation_langs src_lang transition_langs dest_lang) in Hscan.
  rewrite Hbase in Hbase'. injection Hbase' as <-.
  rewrite Hscan in Hscan'. injection Hscan' as <- <-.
  assert (length (translation_langs src_lang transition_langs dest_lang) - 1 - k
          = S (length transition_langs - k)) as ->.
  { unfold translation_langs. rewrite chain_last_index. lia. }
  rewrite seq_S. replace (k + (length transition_langs - k)) with (length transition_langs)
    by lia.
  split.
  - destruct (translate_hops_decompose env _ _ _ _ _ _ _ _ Hhops)
      as (done & blocks & dsi & t2 & _ & Hblocks & Hn & _ & -> & _ & -> & -> & _).
    rewrite app_nil_r, (hop_blocks_texts _ _ Hblocks), Hn.
    rewrite length_app, length_seq. simpl. f_equal. lia.
  - by apply translate_hops_ok in Hhops as (_ & _ & Hwrites & _).
Qed.

Lemma column_of_elements key (get : DatasetElement → string) docs (ds : list DatasetElement) :
  Forall2 (fun doc e => field doc key = Some (get e)) docs ds →
  column env field key docs = Returned (map get ds).
Proof.
  induction 1 as [|doc e docs ds Hdoc _ IH]; simpl; [done|]. by rewrite Hdoc, IH.
Qed.

(** X23. When the dictionaries written for a dataset hold each element's
    text, id and category under the keys 'text', 'id' and 'category', the
    classification view of the chain a completed translating call was
    asked for is the dataset that call returned: its texts, its ids and,
    as string labels, its categories, in order. *)
Theorem classification_view_of_translation src_lang dest_lang transition_langs
    positive_class fs fs' t dataset :
  (∀ ds, Forall2 (fun doc e =>
                    field doc "text" = Some (text e) ∧ field doc "id" = Some (id e) ∧
                    field doc "category" = Some (category e))
                 (dataset_to_dict env ds) ds) →
  ¬ degenerate src_lang dest_lang transition_langs →
  fs !! translation_path env src_lang dest_lang transition_langs = None →
  get_translated_dataset env src_lang dest_lang transition_langs fs = (fs', t, Ok dataset) →
  load_dataset_classification env field BINARY_MAPPING_CONSPIRACY_POS
    BINARY_MAPPING_CRITICAL_POS dest_lang [src_lang :: transition_langs] true positive_class fs'
    = (fs', [],
       Returned (map text dataset, StringLabels (map category dataset), map id dataset)).
Proof.
  intros Hdict Hnd Hfull Hrun.
  rewrite get_translated_dataset_miss in Hrun by done.
  destruct (_translate_dataset_ok_hops env _ _ _ _ _ _ _ _ Hnd Hfull Hrun)
    as (base & k & resume & _ & _ & _ & Hhops).
  apply translate_hops_last in Hhops as [Hfile _].
  unfold translation_langs in Hfile. rewrite Nat.add_1_r, prefix_path_full in Hfile.
  unfold load_dataset_classification. rewrite load_dataset_full_run, Hfile.
  unfold classification_columns.
  rewrite (column_of_elements "text" text _ dataset)
    by (eapply Forall2_impl; [apply Hdict|]; by intros doc e (? & ? & ?)).
  rewrite (column_of_elements "category" category _ dataset)
    by (eapply Forall2_impl; [apply Hdict|]; by intros doc e (? & ? & ?)).
  rewrite (column_of_elements "id" id _ dataset)
    by (eapply Forall2_impl; [apply Hdict|]; by intros doc e (? & ? & ?)).
  done.
Qed.

End CallFacts.

(** ** The further properties on concrete runs *)

Module MoreWitness.
Import Demo Demo2.

(** The labels of the two elements after en -> fr -> es. *)
Lemma translation_keeps_labels_witness :
  ∃ fs' t dataset,
    get_translated_dataset env "en" "es" ["fr"] fs_base = (fs', t, Ok dataset) ∧
    map category dataset = ["CRITICAL"; "CONSPIRACY"].
Proof.
  destruct (get_translated_dataset env "en" "es" ["fr"] fs_base) as [[fs' t] r] eqn:Hrun.
  assert (∃ dataset, r = Ok dataset) as (dataset & ->)
    by (vm_compute in Hrun; injection Hrun as <- <- <-; by eexists).
  exists fs', t, dataset. split; [reflexivity|].
  apply (translation_keeps_labels env "en" "es" ["fr"] fs_base fs' t dataset [e7; e8] 0 [e7; e8]);
    [not_degenerate | reflexivity | reflexivity | reflexivity | exact Hrun].
Defined.

(** The base file is not a prefix file of en, fr, es: the call leaves it. *)
Lemma only_chain_files_change_witness :
  ∃ fs' t r,
    get_translated_dataset env "en" "es" ["fr"] fs_base = (fs', t, r) ∧
    fs' !! "translated/en_en.json" = fs_base !! "translated/en_en.json".
Proof.
  destruct (get_translated_dataset env "en" "es" ["fr"] fs_base) as [[fs' t] r] eqn:Hrun.
  exists fs', t, r. split; [reflexivity|].
  apply (only_chain_files_change env "en" "es" ["fr"] fs_base fs' t r Hrun).
  intros i Hi. simpl in Hi.
  destruct i as [|[|[|i]]]; [lia | | | lia]; vm_compute; discriminate.
Defined.

(** A maximum generation length of 1, and one of -4. *)
Lemma short_max_length_translates_nothing_witness :
  _translate_text env_short "abc" tt true ∅
    = (∅, [TranslateText "abc"], Raise (ValueError "range() arg 3 must not be zero")) ∧
  _translate_text env_short "abc" tt false ∅ = (∅, [TranslateText "abc"], Ok "").
Proof.
  split.
  - apply (short_max_length_translates_nothing env_short "abc" tt true ∅). simpl. lia.
  - apply (short_max_length_translates_nothing env_short "abc" tt false ∅). simpl. lia.
Defined.

(** The first entry names a missing file, the second is empty: the
    unknown language wins. *)
Lemma unknown_language_raises_first_witness :
  fs_official !! entry_file env "fr" ["en"] = None ∧
  load_dataset_full env "fr" [["en"]; []] fs_official
    = (fs_official, [], Raise (ValueError "Unknown language: fr")).
Proof.
  split; [reflexivity|].
  apply (unknown_language_raises_first env "fr" [["en"]; []] fs_official);
    [apply list_elem_of_further, list_elem_of_here | discriminate | discriminate].
Defined.

(** The official English dataset, then the file translated from "es". *)
Lemma loader_concatenates_in_order_witness :
  load_dataset_full env "en" [[]; ["es"]] fs_official = (fs_official, [], Ok [o1; o2]).
Proof.
  apply (loader_concatenates_in_order env "en" [[]; ["es"]] [[o1]; [o2]] fs_official).
  - intros _. by left.
  - repeat constructor.
Defined.

(** No file translated from "de": the error names it, the later entry is
    not looked at. *)
Lemma first_missing_file_raises_witness :
  load_dataset_full env "en" [[]; ["de"]; ["es"]] fs_official
    = (fs_official, [], Raise (FileNotFoundError "translated/de_en.json")).
Proof.
  apply (first_missing_file_raises env "en" [[]] ["de"] [["es"]] fs_official).
  - intros _. by left.
  - repeat constructor. by eexists.
  - reflexivity.
Defined.

(** Probabilities of zero: no draw is below them. *)
Lemma masking_without_hit_is_identity_witness :
  mask_texts lower nat Nat.ltb draws words_path one_line
             ["The Quick fox"; "a  b"] "[MASK]" "en" 0 0 (Some ["quick"]) ∅ 0
    = (Ok ["The Quick fox"; "a  b"], 6).
Proof.
  apply (masking_without_hit_is_identity lower nat Nat.ltb draws words_path one_line
           ["The Quick fox"; "a  b"] "[MASK]" "en" 0 0 ["quick"] ∅ 0).
  intros k _. split; apply Nat.ltb_ge; lia.
Defined.

(** Probabilities of one: every draw is below them. *)
Lemma masking_with_all_hits_witness :
  mask_texts lower nat Nat.ltb draws words_path one_line
             ["The Quick fox"; "a  b"] "[MASK]" "en" 100 100 (Some ["quick"]) ∅ 0
    = (Ok ["[MASK] [MASK] [MASK]"; "[MASK] [MASK] [MASK]"], 6).
Proof.
  apply (masking_with_all_hits lower nat Nat.ltb draws words_path one_line
           ["The Quick fox"; "a  b"] "[MASK]" "en" 100 100 ["quick"] ∅ 0).
  intros k _. unfold draws. split; apply Nat.ltb_lt; apply Nat.mod_upper_bound; lia.
Defined.

(** Probabilities of 0.3 and 0.9: some words are replaced, none moves. *)
Lemma masking_keeps_word_positions_witness :
  ∃ masked_texts,
    mask_texts lower nat Nat.ltb draws words_path one_line
               ["The Quick fox"; "a  b"] "[MASK]" "en" 30 90 (Some ["quick"]) ∅ 0
      = (Ok masked_texts, 6) ∧
    Forall2 (fun text masked_text =>
               Forall2 (fun word masked => masked = "[MASK]" ∨ masked = word)
                       (split_space text) (split_space masked_text))
            ["The Quick fox"; "a  b"] masked_texts.
Proof.
  apply (masking_keeps_word_positions lower nat Nat.ltb draws words_path one_line
           ["The Quick fox"; "a  b"] "[MASK]" "en" 30 90 ["quick"] ∅ 0).
  reflexivity.
Defined.

(** The labels NEG and POS, in that order. *)
Lemma given_labels_fix_the_indices_witness :
  set_string_labels ["NEG"; "POS"] = Returned ["NEG"; "POS"] ∧
  ∃ ixs,
    _labels2indices (_init_classes (Some ["NEG"; "POS"]) ["POS"; "NEG"; "POS"])
                    ["POS"; "NEG"; "POS"] = Returned ixs ∧
    Forall2 (fun l ix => ["NEG"; "POS"] !! ix = Some l) ["POS"; "NEG"; "POS"] ixs ∧
    _indices2labels (_init_classes (Some ["NEG"; "POS"]) ["POS"; "NEG"; "POS"]) ixs
      = Returned ["POS"; "NEG"; "POS"].
Proof.
  split; [reflexivity|].
  apply (given_labels_fix_the_indices ["NEG"; "POS"] ["NEG"; "POS"] ["POS"; "NEG"; "POS"]);
    [reflexivity|].
  intros l Hl. apply list_elem_of_In in Hl. apply list_elem_of_In. simpl in *. tauto.
Defined.

(** The label "z" was not among the training labels. *)
Lemma unknown_label_raises_key_error_witness :
  _labels2indices (_init_classes None ["a"; "b"]) ["a"; "z"; "b"] = Raised (KeyError "z").
Proof.
  apply (unknown_label_raises_key_error None ["a"; "b"] ["a"] "z" ["b"]).
  - intros l Hl. apply list_elem_of_In in Hl. apply list_elem_of_In.
    vm_compute. simpl in Hl. tauto.
  - intros Hz. apply list_elem_of_In in Hz. vm_compute in Hz.
    destruct Hz as [Hz|[Hz|[]]]; discriminate Hz.
Defined.

(** The official English dataset and the file translated from "es", with
    binary labels for the positive class 'conspiracy'. *)
Lemma classification_rows_are_aligned_witness :
  load_dataset_classification env field conspiracy_pos critical_pos
    "en" [[]; ["es"]] false "conspiracy" fs_official
    = (fs_official, [], Returned (["one"; "two"], BinaryLabels [0%Z; 1%Z], ["1"; "2"])) ∧
  ∃ dataset,
    load_dataset_full env "en" [[]; ["es"]] fs_official = (fs_official, [], Ok dataset) ∧
    Forall2 (fun doc value => field doc "text" = Some value) dataset ["one"; "two"] ∧
    Forall2 (fun doc value => field doc "id" = Some value) dataset ["1"; "2"].
Proof.
  assert (load_dataset_classification env field conspiracy_pos critical_pos
            "en" [[]; ["es"]] false "conspiracy" fs_official
          = (fs_official, [], Returned (["one"; "two"], BinaryLabels [0%Z; 1%Z], ["1"; "2"])))
    as Hrun by reflexivity.
  split; [exact Hrun|].
  destruct (classification_rows_are_aligned env field conspiracy_pos critical_pos
              _ _ _ _ _ _ _ _ _ _ Hrun) as (_ & _ & dataset & Hload & Htexts & Hids & _).
  by exists dataset.
Defined.

(** A positive class that is neither 'conspiracy' nor 'critical': on the
    complete Spanish file the unknown-class error is raised; on the English
    file, whose second document has no text, the missing key is reported
    instead. *)
Lemma positive_class_checked_for_binary_only_witness :
  load_dataset_full env_json "es" [[]] fs_json = (fs_json, [], Ok [j1]) ∧
  load_dataset_classification env_json json_field conspiracy_pos critical_pos
    "es" [[]] false "neutral" fs_json
    = (fs_json, [], Raised (Builtin (ValueError "Unknown positive class: neutral"))) ∧
  load_dataset_classification env_json json_field conspiracy_pos critical_pos
    "es" [[]] true "neutral" fs_json
    = load_dataset_classification env_json json_field conspiracy_pos critical_pos
        "es" [[]] true "conspiracy" fs_json ∧
  load_dataset_full env_json "en" [[]] fs_json = (fs_json, [], Ok [j1; j2]) ∧
  load_dataset_classification env_json json_field conspiracy_pos critical_pos
    "en" [[]] false "neutral" fs_json
    = (fs_json, [], Raised (KeyError "text")).
Proof.
  assert (load_dataset_full env_json "es" [[]] fs_json = (fs_json, [], Ok [j1])) as Hes
    by reflexivity.
  assert (load_dataset_full env_json "en" [[]] fs_json = (fs_json, [], Ok [j1; j2])) as Hen
    by reflexivity.
  destruct (positive_class_checked_for_binary_only env_json json_field
              conspiracy_pos critical_pos "es" [[]] "neutral" fs_json [j1])
    as (Hvalue & _ & _ & Hstrings); [discriminate | discriminate | exact Hes |].
  destruct (positive_class_checked_for_binary_only env_json json_field
              conspiracy_pos critical_pos "en" [[]] "neutral" fs_json [j1; j2])
    as (_ & Hkey & _ & _); [discriminate | discriminate | exact Hen |].
  split_and!; [exact Hes | | exact Hstrings | exact Hen |].
  - apply Hvalue. repeat constructor. by eexists.
  - apply (Hkey [j1] j2 []); [reflexivity | | reflexivity].
    repeat constructor. by eexists.
Defined.

(** The third document has the category OTHER, which the mapping lacks. *)
Lemma unmapped_category_raises_key_error_witness :
  load_dataset_classification env field conspiracy_pos critical_pos
    "en" [[]; ["fr"]] false "conspiracy" fs_official
    = (fs_official, [], Raised (KeyError "OTHER")).
Proof.
  apply (unmapped_category_raises_key_error env field conspiracy_pos critical_pos
           "en" [[]; ["fr"]] "conspiracy" conspiracy_pos fs_official [o1; o2] o3 [] "OTHER").
  - by left.
  - reflexivity.
  - repeat constructor; by eexists.
  - repeat constructor.
    + by exists "CRITICAL", 0%Z.
    + by exists "CONSPIRACY", 1%Z.
  - reflexivity.
  - reflexivity.
Defined.

(** The file translated from "fr" to "en", seen both ways. *)
Lemma texts_and_ids_agree_witness :
  load_dataset_classification env field conspiracy_pos critical_pos
    "en" [["fr"]] true "conspiracy" fs_official
    = (fs_official, [],
       Returned (["two"; "three"], StringLabels ["CONSPIRACY"; "OTHER"], ["2"; "3"])) ∧
  load_texts_and_ids_from_json env field "translated/fr_en.json" fs_official
    = (fs_official, [], Returned (["two"; "three"], ["2"; "3"])).
Proof.
  assert (load_dataset_classification env field conspiracy_pos critical_pos
            "en" [["fr"]] true "conspiracy" fs_official
          = (fs_official, [],
             Returned (["two"; "three"], StringLabels ["CONSPIRACY"; "OTHER"], ["2"; "3"])))
    as Hrun by reflexivity.
  split; [exact Hrun|].
  exact (texts_and_ids_agree env field conspiracy_pos critical_pos
           _ _ _ _ _ _ _ _ _ _ _ Hrun).
Defined.

(** A request for en -> fr, then the request for en -> fr -> es, against
    the request for en -> fr -> es alone. *)
Lemma resumed_call_equals_direct_call_witness :
  ∃ fs1 t1 d1 fsD tD dD t2,
    get_translated_dataset env "en" "fr" [] fs_base = (fs1, t1, Ok d1) ∧
    get_translated_dataset env "en" "es" ["fr"] fs_base = (fsD, tD, Ok dD) ∧
    get_translated_dataset env "en" "es" ["fr"] fs1 = (fsD, t2, Ok dD) ∧
    tD = t1 ++ t2 ∧
    length (model_loads t2) = 1.
Proof.
  destruct (get_translated_dataset env "en" "fr" [] fs_base) as [[fs1 t1] r1] eqn:Hfirst.
  assert (∃ d1, r1 = Ok d1) as (d1 & ->)
    by (vm_compute in Hfirst; injection Hfirst as <- <- <-; by eexists).
  destruct (get_translated_dataset env "en" "es" ["fr"] fs_base) as [[fsD tD] rD] eqn:Hdirect.
  assert (∃ dD, rD = Ok dD) as (dD & ->)
    by (vm_compute in Hdirect; injection Hdirect as <- <- <-; by eexists).
  destruct (resumed_call_equals_direct_call env "en" "fr" "es" [] []
              fs_base fs1 t1 d1 fsD tD dD) as (t2 & Hsecond & Htrace & Hloads);
    [reflexivity | | | exact Hfirst | exact Hdirect |].
  - intros i Hi. simpl in Hi. destruct i as [|[|[|i]]]; [lia | | | lia]; reflexivity.
  - intros i j Hj Hi. simpl in Hi, Hj.
    assert (j = 1) as -> by lia. assert (i = 2) as -> by lia. vm_compute. discriminate.
  - exists fs1, t1, d1, fsD, tD, dD, t2. by split_and!.
Defined.

(** Two elements through the two hops of en, fr, es. *)
Lemma translation_work_witness :
  ∃ fs' t dataset,
    get_translated_dataset env "en" "es" ["fr"] fs_base = (fs', t, Ok dataset) ∧
    length (translated_texts t) = 4 ∧
    file_writes t = ["translated/en_fr.json"; "translated/en_fr_es.json"].
Proof.
  destruct (get_translated_dataset env "en" "es" ["fr"] fs_base) as [[fs' t] r] eqn:Hrun.
  assert (∃ dataset, r = Ok dataset) as (dataset & ->)
    by (vm_compute in Hrun; injection Hrun as <- <- <-; by eexists).
  exists fs', t, dataset. split; [reflexivity|].
  apply (translation_work env "en" "es" ["fr"] fs_base fs' t dataset [e7; e8] 0 [e7; e8]);
    [not_degenerate | reflexivity | reflexivity | reflexivity | exact Hrun].
Defined.

(** The dataset translated through en, fr, es, read back for
    classification. *)
Lemma classification_view_of_translation_witness :
  ∃ fs' t dataset,
    get_translated_dataset env "en" "es" ["fr"] fs_base = (fs', t, Ok dataset) ∧
    load_dataset_classification env field conspiracy_pos critical_pos
      "es" [["en"; "fr"]] true "conspiracy" fs'
      = (fs', [],
         Returned (map text dataset, StringLabels (map category dataset), map id dataset)).
Proof.
  destruct (get_translated_dataset env "en" "es" ["fr"] fs_base) as [[fs' t] r] eqn:Hrun.
  assert (∃ dataset, r = Ok dataset) as (dataset & ->)
    by (vm_compute in Hrun; injection Hrun as <- <- <-; by eexists).
  exists fs', t, dataset. split; [reflexivity|].
  apply (classification_view_of_translation env field conspiracy_pos critical_pos
           "en" "es" ["fr"] "conspiracy" fs_base fs' t dataset);
    [ | not_degenerate | reflexivity | exact Hrun].
  intros ds. induction ds as [|e ds IH]; constructor; [by split_and!|exact IH].
Defined.

End MoreWitness.
